(** * Relativistic light clock orbiter: the simulation core

    A shallow embedding of the per-frame physics of
    [src/components/SimulationCanvas.tsx], of the co-moving view of
    [src/components/RelativeView.tsx] and of the application shell
    ([App], [src/unnamed/part_000]; the scenario enumeration is
    [src/unnamed/part_001]).

    JavaScript numbers are idealised as real numbers: [+], [*], [/],
    [Math.sqrt], [Math.sin] and [Math.cos] are the exact operations of
    [R], and comparisons are decided with [Rge_dec], [Rle_dec] and
    [Rlt_dec].  The rounding of binary64 arithmetic, NaN and infinities
    are therefore outside the model; [Math.sqrt] of a negative number
    (NaN in JavaScript) is only reached for a velocity ratio above 1,
    which the slider of [Controls.tsx] (min 0, max 0.99) never
    produces.  A store into a [Float32Array] rounds to binary32; that
    rounding is the parameter [fround] of the buffers.

    Rendering (camera, lights, materials, visibility flags, the galaxy
    and the star field of the LINEAR scenario) is left out: it reads
    the simulation state and never writes it. *)

From Stdlib Require Import Floats.
From Stdlib Require Import Reals Lra Lia List Bool Arith.

Set Warnings "-inexact-float".
Import ListNotations.

Local Open Scope R_scope.

(* ================================================================== *)
(** ** The part of three.js the simulation relies on *)
(* ================================================================== *)

Module THREE.

Record Vector3 : Type := vec3 { x : R; y : R; z : R }.

(** Object rotations are Euler angles in three.js' default order XYZ. *)
Record Euler : Type := euler { ex : R; ey : R; ez : R }.

Definition zero : Vector3 := vec3 0 0 0.
Definition one : Vector3 := vec3 1 1 1.
Definition noRotation : Euler := euler 0 0 0.

Definition add (a b : Vector3) : Vector3 :=
  vec3 (x a + x b) (y a + y b) (z a + z b).

Definition rotateX (a : R) (v : Vector3) : Vector3 :=
  vec3 (x v) (y v * cos a - z v * sin a) (y v * sin a + z v * cos a).

Definition rotateY (a : R) (v : Vector3) : Vector3 :=
  vec3 (x v * cos a + z v * sin a) (y v) (z v * cos a - x v * sin a).

Definition rotateZ (a : R) (v : Vector3) : Vector3 :=
  vec3 (x v * cos a - y v * sin a) (x v * sin a + y v * cos a) (z v).

(** [Vector3.applyEuler]: the rotation matrix of order XYZ is
    [Rx * Ry * Rz], so the vector is turned about z first. *)
Definition applyEuler (v : Vector3) (e : Euler) : Vector3 :=
  rotateX (ex e) (rotateY (ey e) (rotateZ (ez e) v)).

(** A unit quaternion is represented by the rotation it performs. *)
Definition Quaternion : Type := Vector3 -> Vector3.

Definition applyQuaternion (v : Vector3) (q : Quaternion) : Vector3 := q v.

End THREE.

(* ================================================================== *)
(** ** [types.ts] *)
(* ================================================================== *)

Inductive SimulationScenario : Type :=
| LINEAR
| EARTH_ORBIT
| SOLAR_SYSTEM
| GALAXY.

Definition scenario_eqb (a b : SimulationScenario) : bool :=
  match a, b with
  | LINEAR, LINEAR
  | EARTH_ORBIT, EARTH_ORBIT
  | SOLAR_SYSTEM, SOLAR_SYSTEM
  | GALAXY, GALAXY => true
  | _, _ => false
  end.

(** The record behind [sharedSimState.current], created by [App] with
    [useRef] and handed to both views. *)
Module SharedSimState.
Record t : Type := mk { photonPhase : R; photonDir : R }.
End SharedSimState.

(* ================================================================== *)
(** ** [SimulationCanvas.tsx] *)
(* ================================================================== *)

Module SimulationCanvas.

Import THREE.

Record Props : Type := mkProps {
  isRunning : bool;
  orbitSpeedMultiplier : R;
  showTrail : bool;
  scenario : SimulationScenario
}.

(** [threeRef.current.state] *)
Record SimulationState : Type := mkState {
  celestialTime : R;
  shipTime : R;
  linearOffset : R;
  photonPhase : R;
  photonDir : R;
  trailPoints : list Vector3
}.

(** The transforms of [threeRef.current.objects] that [animate] sets. *)
Record SceneObjects : Type := mkObjects {
  galaxy_rotation_y : R;
  earthMesh_rotation_y : R;
  sunGroup_position : Vector3;
  earthGroup_position : Vector3;
  shipGroup_position : Vector3;
  shipMesh_rotation : Euler;
  shipMesh_scale : Vector3;
  clockApparatus_rotation : Euler;
  photon_position : Vector3
}.

Record ThreeRef : Type := mkThree {
  objects : SceneObjects;
  state : SimulationState
}.

(** The state literal of the mount effect. *)
Definition initialState : SimulationState :=
  mkState 0 0 0 0.5 1 [].

(** Freshly created scene objects: no translation, no rotation, unit
    scale. *)
Definition initialObjects : SceneObjects :=
  mkObjects 0 0 zero zero zero noRotation one noRotation zero.

Definition mount : ThreeRef := mkThree initialObjects initialState.

(** *** Scenario effect: the state reset *)

Definition scenarioEffect (sc : SimulationScenario)
    (three : ThreeRef) (shared : SharedSimState.t)
    : ThreeRef * SharedSimState.t :=
  let st := state three in
  let st := mkState (celestialTime st) 0 (linearOffset st)
                    (photonPhase st) (photonDir st) (trailPoints st) in
  let st := mkState 0 (shipTime st) (linearOffset st)
                    (photonPhase st) (photonDir st) (trailPoints st) in
  let st := mkState (celestialTime st) (shipTime st) 0
                    (photonPhase st) (photonDir st) (trailPoints st) in
  let st := mkState (celestialTime st) (shipTime st) (linearOffset st)
                    0.5 (photonDir st) (trailPoints st) in
  let st := mkState (celestialTime st) (shipTime st) (linearOffset st)
                    (photonPhase st) 1 (trailPoints st) in
  (* [sharedSimState && sharedSimState.current] is an object: truthy. *)
  let shared := SharedSimState.mk 0.5 (SharedSimState.photonDir shared) in
  let shared := SharedSimState.mk (SharedSimState.photonPhase shared) 1 in
  let st := mkState (celestialTime st) (shipTime st) (linearOffset st)
                    (photonPhase st) (photonDir st) [] in
  let st :=
    if scenario_eqb sc LINEAR
    then mkState (celestialTime st) (shipTime st) 0
                 (photonPhase st) (photonDir st) (trailPoints st)
    else st in
  (mkThree (objects three) st, shared).

(** *** The kinematics of one frame *)

Definition SPEED_OF_LIGHT : R := 0.8.
Definition CLOCK_TRAVEL_DIST : R := 6.0.
Definition CELESTIAL_DT : R := 0.02.

Definition vShip (vRatio : R) : R := vRatio * SPEED_OF_LIGHT.

Definition vVertical (vRatio : R) : R :=
  sqrt (1 - vRatio * vRatio) * SPEED_OF_LIGHT.

Definition photonPhaseStep (vRatio : R) : R :=
  vVertical vRatio / CLOCK_TRAVEL_DIST.

Definition contraction (orbitSpeedMultiplier : R) : R :=
  sqrt (1 - orbitSpeedMultiplier * orbitSpeedMultiplier).

(** The two bounce tests, in the order of the source. *)
Definition bounce (phase dir : R) : R * R :=
  let (phase, dir) :=
    if Rge_dec phase 1 then (1, -1) else (phase, dir) in
  if Rle_dec phase 0 then (0, 1) else (phase, dir).

(** The [if (isRunning)] block. *)
Definition advance (p : Props) (st : SimulationState) : SimulationState :=
  if isRunning p then
    let vRatio := orbitSpeedMultiplier p in
    let celestialTime' := celestialTime st + CELESTIAL_DT in
    let shipTime' := shipTime st + vShip vRatio * 0.05 in
    let linearOffset' :=
      if scenario_eqb (scenario p) LINEAR
      then linearOffset st + vShip vRatio
      else linearOffset st in
    let phase := photonPhase st + photonDir st * photonPhaseStep vRatio in
    let (phase, dir) := bounce phase (photonDir st) in
    mkState celestialTime' shipTime' linearOffset' phase dir (trailPoints st)
  else st.

(** The write to the shared record ([sharedSimState.current] is always
    an object, so the guard of the source is always taken). *)
Definition syncShared (st : SimulationState) : SharedSimState.t :=
  SharedSimState.mk (photonPhase st) (photonDir st).

(** *** Positioning *)

Definition positionLinear (p : Props) (st : SimulationState)
    (o : SceneObjects) : SceneObjects :=
  let shipPos := vec3 (linearOffset st) 0 0 in
  mkObjects (galaxy_rotation_y o) (earthMesh_rotation_y o)
            (sunGroup_position o) (earthGroup_position o)
            shipPos
            (euler 0 0 0)
            (vec3 (contraction (orbitSpeedMultiplier p)) 1 1)
            (euler 0.3 (PI / 2) 0)
            (photon_position o).

Definition positionOrbit (p : Props) (st : SimulationState)
    (o : SceneObjects) : SceneObjects :=
  let orbitR := 50 in
  let '(sunPos, earthPos, tiltAngle) :=
    match scenario p with
    | GALAXY =>
        let tiltAngle := 60 * (PI / 180) in
        let solarR := 300 in
        let sunOrbitAngle := celestialTime st * 0.1 + PI in
        let centerPos :=
          vec3 (cos sunOrbitAngle * solarR) 0 (- sin sunOrbitAngle * solarR) in
        let earthAngle := celestialTime st * 2.0 in
        let earthOrbitR := 60 in
        let ex := cos earthAngle * earthOrbitR in
        let ez := - sin earthAngle * earthOrbitR in
        let earthOffset :=
          vec3 ex (ez * sin tiltAngle) (ez * cos tiltAngle) in
        (centerPos, add centerPos earthOffset, tiltAngle)
    | SOLAR_SYSTEM =>
        let centerPos :=
          vec3 (cos (celestialTime st * 0.3) * 120) 0
               (- sin (celestialTime st * 0.3) * 120) in
        (vec3 0 0 0, centerPos, 0)
    | _ =>
        (sunGroup_position o, vec3 0 0 0, 0)
    end in
  let orbitCenter :=
    if scenario_eqb (scenario p) EARTH_ORBIT then vec3 0 0 0 else earthPos in
  let shipAngle := shipTime st * 2.5 in
  let sx := cos shipAngle * orbitR in
  let sz := - sin shipAngle * orbitR in
  let '(fy, fz) :=
    if Req_dec_T tiltAngle 0 then (0, sz)
    else (sz * sin tiltAngle, sz * cos tiltAngle) in
  let shipPos := add (vec3 sx fy fz) orbitCenter in
  mkObjects (galaxy_rotation_y o) (earthMesh_rotation_y o)
            sunPos earthPos
            shipPos
            (euler tiltAngle shipAngle 0)
            (vec3 1 1 1)
            (euler 0 0 0.3)
            (photon_position o).

Definition position (p : Props) (st : SimulationState)
    (o : SceneObjects) : SceneObjects :=
  let o := mkObjects (celestialTime st * 0.05) (celestialTime st * 0.2)
                     (sunGroup_position o) (earthGroup_position o)
                     (shipGroup_position o) (shipMesh_rotation o)
                     (shipMesh_scale o) (clockApparatus_rotation o)
                     (photon_position o) in
  if scenario_eqb (scenario p) LINEAR
  then positionLinear p st o
  else positionOrbit p st o.

(** *** Photon position

    [clockApparatus] sits at the local origin of [shipMesh], which
    sits at the local origin of [shipGroup], a child of the scene:
    its world position is the position of [shipGroup], and its world
    rotation is the rotation of [shipMesh] followed by its own.  In the
    orbit scenarios [shipMesh] has unit scale.  In the LINEAR scenario
    [shipMesh] is not rotated and is scaled along x only, and the
    clock's own rotation turns its local z axis onto the world x axis
    ([clock_axis_along_travel] below): the scale stretches that one
    column of the world matrix, whose columns stay orthogonal, so the
    matrix decomposes into the clock's rotation and a scale. *)

Definition getWorldPosition (o : SceneObjects) : Vector3 :=
  shipGroup_position o.

Definition getWorldQuaternion (o : SceneObjects) : Quaternion :=
  fun v => applyEuler (applyEuler v (clockApparatus_rotation o))
                      (shipMesh_rotation o).

Definition photonWorldPosition (st : SimulationState)
    (o : SceneObjects) : Vector3 :=
  let clockPos := getWorldPosition o in
  let clockQuat := getWorldQuaternion o in
  let range := 3.0 in
  let localY := - range + photonPhase st * (range * 2) in
  let localOffset := applyQuaternion (vec3 0 localY 0) clockQuat in
  add clockPos localOffset.

(** *** Trail *)

Definition push (l : list Vector3) (v : Vector3) : list Vector3 := l ++ [v].

(** [Array.prototype.shift]: drops the first element, if any. *)
Definition shift (l : list Vector3) : list Vector3 := tl l.

Definition trailMax : nat := 5000.

Definition updateTrail (p : Props) (st : SimulationState)
    (finalPhotonPos : Vector3) : list Vector3 :=
  let tp := trailPoints st in
  let tp :=
    if showTrail p && isRunning p then
      let tp := push tp finalPhotonPos in
      let tp := if (trailMax <? length tp)%nat then shift tp else tp in
      if scenario_eqb (scenario p) LINEAR && (0 <? length tp)%nat then
        match tp with
        | p0 :: _ =>
            if Rlt_dec (x p0) (linearOffset st - 1200) then shift tp else tp
        | [] => tp
        end
      else tp
    else tp in
  if negb (showTrail p) then [] else tp.

(** *** One animation frame *)

Definition animate (p : Props) (three : ThreeRef)
    (shared : SharedSimState.t) : ThreeRef * SharedSimState.t :=
  let st := advance p (state three) in
  let shared := syncShared st in
  let o := position p st (objects three) in
  let finalPhotonPos := photonWorldPosition st o in
  let o := mkObjects (galaxy_rotation_y o) (earthMesh_rotation_y o)
                     (sunGroup_position o) (earthGroup_position o)
                     (shipGroup_position o) (shipMesh_rotation o)
                     (shipMesh_scale o) (clockApparatus_rotation o)
                     finalPhotonPos in
  let tp := updateTrail p st finalPhotonPos in
  let st := mkState (celestialTime st) (shipTime st) (linearOffset st)
                    (photonPhase st) (photonDir st) tp in
  (mkThree o st, shared).

End SimulationCanvas.

(* ================================================================== *)
(** ** [RelativeView.tsx] *)
(* ================================================================== *)

Module RelativeView.

Import THREE.

Record Props : Type := mkProps {
  isRunning : bool;
  speed : R
}.

(** The transforms of the co-moving scene that its [animate] sets. *)
Record Scene : Type := mkScene {
  clockGroup_rotation : Euler;
  photon_position : Vector3
}.

(** The effect builds the scene anew: the clock is tilted by 0.2 and
    0.3 about x and y. *)
Definition mount : Scene := mkScene (euler 0.2 0.3 0) zero.

(** The phase the frame places its photon with. *)
Definition currentPhase (shared : SharedSimState.t) : R :=
  SharedSimState.photonPhase shared.

Definition animate (p : Props) (shared : SharedSimState.t)
    (sc : Scene) : Scene :=
  let currentPhase := currentPhase shared in
  let range := 3.0 in
  let y := - range + currentPhase * (range * 2) in
  let localPos := applyEuler (vec3 0 y 0) (clockGroup_rotation sc) in
  let rotSpeed := 0.002 + speed p * 0.05 in
  let r := clockGroup_rotation sc in
  mkScene (euler (ex r) (ey r + rotSpeed) (ez r)) localPos.

End RelativeView.

(* ================================================================== *)
(** ** [App]: controls, reset and the frame scheduler *)
(* ================================================================== *)

Module App.

(** The [useState] cells of [App] and the record behind its
    [sharedSimState] ref. *)
Record State : Type := mkApp {
  isRunning : bool;
  orbitSpeed : R;
  showTrail : bool;
  scenario : SimulationScenario;
  resetKey : nat;
  sharedSimState : SharedSimState.t
}.

Definition initial : State :=
  mkApp true 0.0 true EARTH_ORBIT 0 (SharedSimState.mk 0.5 1).

Definition handleTogglePlay (a : State) : State :=
  mkApp (negb (isRunning a)) (orbitSpeed a) (showTrail a) (scenario a)
        (resetKey a) (sharedSimState a).

(** [handleReset], up to the timer it arms. *)
Definition handleReset (a : State) : State :=
  mkApp false 0.0 (showTrail a) (scenario a) (resetKey a + 1)
        (SharedSimState.mk 0.5 1).

(** The callback of the timer armed by [handleReset]. *)
Definition resume (a : State) : State :=
  mkApp true (orbitSpeed a) (showTrail a) (scenario a)
        (resetKey a) (sharedSimState a).

Definition handleScenarioChange (s : SimulationScenario) (a : State) : State :=
  mkApp (isRunning a) (orbitSpeed a) (showTrail a) s
        (resetKey a) (sharedSimState a).

Definition onSpeedChange (v : R) (a : State) : State :=
  mkApp (isRunning a) v (showTrail a) (scenario a)
        (resetKey a) (sharedSimState a).

Definition onToggleTrail (a : State) : State :=
  mkApp (isRunning a) (orbitSpeed a) (negb (showTrail a)) (scenario a)
        (resetKey a) (sharedSimState a).

Definition setShared (a : State) (sh : SharedSimState.t) : State :=
  mkApp (isRunning a) (orbitSpeed a) (showTrail a) (scenario a)
        (resetKey a) sh.

(** The props [App] renders its two views with. *)
Definition canvasProps (a : State) : SimulationCanvas.Props :=
  SimulationCanvas.mkProps (isRunning a) (orbitSpeed a) (showTrail a)
                           (scenario a).

Definition relativeProps (a : State) : RelativeView.Props :=
  RelativeView.mkProps (isRunning a) (orbitSpeed a).

Record World : Type := mkWorld {
  app : State;
  canvas : SimulationCanvas.ThreeRef;
  relative : RelativeView.Scene
}.

(** The re-render after a handler changed [App]'s state from [old] to
    [a].  A new [resetKey] remounts [SimulationCanvas], whose mount
    runs the state literal and then the scenario effect; a new
    scenario re-runs the scenario effect; a new [isRunning] or speed
    re-runs the effect of [RelativeView], which rebuilds its scene.
    The first frame each restarted loop draws at once is a
    [CanvasFrame] or [RelativeFrame] of its own. *)
Definition commit (old : State) (w : World) (a : State) : World :=
  let '(three, shared) :=
    if negb (resetKey a =? resetKey old)%nat then
      SimulationCanvas.scenarioEffect (scenario a) SimulationCanvas.mount
                                      (sharedSimState a)
    else if negb (scenario_eqb (scenario a) (scenario old)) then
      SimulationCanvas.scenarioEffect (scenario a) (canvas w)
                                      (sharedSimState a)
    else (canvas w, sharedSimState a) in
  let rel :=
    if Bool.eqb (isRunning a) (isRunning old)
    then if Req_dec_T (orbitSpeed a) (orbitSpeed old)
         then relative w else RelativeView.mount
    else RelativeView.mount in
  mkWorld (setShared a shared) three rel.

Inductive Event : Type :=
| CanvasFrame
| RelativeFrame
| TogglePlay
| SpeedChange (v : R)
| ToggleTrail
| ScenarioChange (s : SimulationScenario)
| ResetClick
| ResumeTimer.

Definition step (w : World) (e : Event) : World :=
  let a := app w in
  match e with
  | CanvasFrame =>
      let '(three, shared) :=
        SimulationCanvas.animate (canvasProps a) (canvas w)
                                 (sharedSimState a) in
      mkWorld (setShared a shared) three (relative w)
  | RelativeFrame =>
      mkWorld a (canvas w)
              (RelativeView.animate (relativeProps a) (sharedSimState a)
                                    (relative w))
  | TogglePlay => commit a w (handleTogglePlay a)
  | SpeedChange v => commit a w (onSpeedChange v a)
  | ToggleTrail => commit a w (onToggleTrail a)
  | ScenarioChange s => commit a w (handleScenarioChange s a)
  | ResetClick => commit a w (handleReset a)
  | ResumeTimer => commit a w (resume a)
  end.

Definition run (w : World) (es : list Event) : World := fold_left step es w.

(** The world once [App] is mounted. *)
Definition initialWorld : World :=
  let '(three, shared) :=
    SimulationCanvas.scenarioEffect (scenario initial)
      SimulationCanvas.mount (sharedSimState initial) in
  mkWorld (setShared initial shared) three RelativeView.mount.

(** The slider of [Controls.tsx] ranges over 0 .. 0.99. *)
Definition validEvent (e : Event) : Prop :=
  match e with
  | SpeedChange v => 0 <= v <= 0.99
  | _ => True
  end.

End App.

(* ================================================================== *)
(** ** The animation frames of the page *)
(* ================================================================== *)

(** The [animate] of either view asks for the next animation frame as
    its first statement, and the browser runs the callbacks of one
    animation frame in the order in which they were asked for.  The
    order of the two views within a frame is therefore the order in
    which their loops were last started.  The loop effect of
    [SimulationCanvas] starts again when [isRunning],
    [orbitSpeedMultiplier], [showTrail] or [scenario] changes and when
    the canvas is remounted; the effect of [RelativeView] when
    [isRunning] or [speed] changes.  The effects of one re-render run in
    the order of the tree, [SimulationCanvas] first, and a loop that
    starts draws a frame at once. *)
Module Page.

Inductive Order : Type := CanvasFirst | RelativeFirst.

Record t : Type := mk {
  world : App.World;
  order : Order
}.

Definition relativeRestarts (old a : App.State) : bool :=
  negb (Bool.eqb (App.isRunning a) (App.isRunning old))
  || (if Req_dec_T (App.orbitSpeed a) (App.orbitSpeed old)
      then false else true).

Definition canvasRestarts (old a : App.State) : bool :=
  relativeRestarts old a
  || negb (Bool.eqb (App.showTrail a) (App.showTrail old))
  || negb (scenario_eqb (App.scenario a) (App.scenario old))
  || negb (App.resetKey a =? App.resetKey old)%nat.

(** One animation frame: both callbacks, in the order of the page. *)
Definition animationFrame (pg : t) : t :=
  match order pg with
  | CanvasFirst =>
      mk (App.step (App.step (world pg) App.CanvasFrame) App.RelativeFrame)
         CanvasFirst
  | RelativeFirst =>
      mk (App.step (App.step (world pg) App.RelativeFrame) App.CanvasFrame)
         RelativeFirst
  end.

(** A handler of [App], the re-render it causes and the frames the
    restarted loops draw at once. *)
Definition control (e : App.Event) (pg : t) : t :=
  let old := App.app (world pg) in
  let w := App.step (world pg) e in
  let a := App.app w in
  let w := if canvasRestarts old a then App.step w App.CanvasFrame else w in
  let w := if relativeRestarts old a then App.step w App.RelativeFrame else w in
  mk w (if relativeRestarts old a then CanvasFirst
        else if canvasRestarts old a then RelativeFirst
        else order pg).

Inductive Event : Type :=
| AnimationFrame
| Control (e : App.Event).

Definition step (pg : t) (ev : Event) : t :=
  match ev with
  | AnimationFrame => animationFrame pg
  | Control e => control e pg
  end.

Definition run (pg : t) (evs : list Event) : t := fold_left step evs pg.

(** The page once [App] is mounted: both loops have drawn their first
    frame, the canvas first. *)
Definition initial : t :=
  mk (App.step (App.step App.initialWorld App.CanvasFrame) App.RelativeFrame)
     CanvasFirst.


End Page.

(* ================================================================== *)
(** ** The speeds of one frame in binary64 arithmetic *)
(* ================================================================== *)

(** The same three expressions of [animate] over IEEE 754 binary64
    numbers, the numbers JavaScript computes with; decimal literals
    are rounded to the nearest binary64 value, as JavaScript does. *)
Module Binary64.

Local Open Scope float_scope.

Definition SPEED_OF_LIGHT : float := 0.8.

Definition vShip (vRatio : float) : float := vRatio * SPEED_OF_LIGHT.

Definition vVertical (vRatio : float) : float :=
  PrimFloat.sqrt (1 - vRatio * vRatio) * SPEED_OF_LIGHT.

Definition contraction (orbitSpeedMultiplier : float) : float :=
  PrimFloat.sqrt (1 - orbitSpeedMultiplier * orbitSpeedMultiplier).

(** [|a - b| < tol] *)
Definition within (a b tol : float) : bool :=
  PrimFloat.ltb (PrimFloat.abs (a - b)) tol.

End Binary64.

(* ================================================================== *)
(** ** Specification predicates *)
(* ================================================================== *)

Import THREE.
Import SimulationCanvas.

(** The velocity ratios the control surface can deliver. *)
Definition validRatio (beta : R) : Prop := 0 <= beta <= 0.99.

(** The phase lies between the mirrors and the direction is a sign. *)
Definition phaseInRange (st : SimulationState) : Prop :=
  0 <= photonPhase st <= 1 /\ (photonDir st = 1 \/ photonDir st = -1).

(** The shared record repeats the phase and direction of the state. *)
Definition synced (st : SimulationState) (sh : SharedSimState.t) : Prop :=
  SharedSimState.photonPhase sh = photonPhase st /\
  SharedSimState.photonDir sh = photonDir st.

(** What every world reached through events in the slider's range
    satisfies. *)
Definition phaseInvariant (w : App.World) : Prop :=
  phaseInRange (state (App.canvas w)) /\
  validRatio (App.orbitSpeed (App.app w)).

(** What every reachable world satisfies, whatever the speed. *)
Definition bufferInvariant (w : App.World) : Prop :=
  let st := state (App.canvas w) in
  (length (trailPoints st) <= trailMax)%nat /\
  synced st (App.sharedSimState (App.app w)).

(** A frame of the canvas on the pair of its own state and the shared
    record it was handed. *)
Definition frame (p : Props) (m : ThreeRef * SharedSimState.t)
    : ThreeRef * SharedSimState.t :=
  animate p (fst m) (snd m).

(** One running frame from [st]: the phase stays between the mirrors,
    is clamped to the mirror it would reach or pass, with the direction
    reversed in that frame, and moves by the full step otherwise. *)
Definition bounceSpec (p : Props) (st st' : SimulationState) : Prop :=
  let target := photonPhase st
                + photonDir st * photonPhaseStep (orbitSpeedMultiplier p) in
  phaseInRange st' /\
  (1 <= target -> photonPhase st' = 1 /\ photonDir st' = - photonDir st) /\
  (target <= 0 -> photonPhase st' = 0 /\ photonDir st' = - photonDir st) /\
  (0 < target < 1 -> photonPhase st' = target /\ photonDir st' = photonDir st).

(** After a bounce the next running frame does not reverse again. *)
Definition noSecondFlip (st : SimulationState)
    (m' : ThreeRef * SharedSimState.t) : Prop :=
  photonDir (state (fst m')) = - photonDir st ->
  forall q, isRunning q = true -> validRatio (orbitSpeedMultiplier q) ->
    let st'' := state (fst (frame q m')) in
    photonDir st'' = photonDir (state (fst m')) /\ 0 < photonPhase st'' < 1.

(** The buffer after the append and the eviction by count. *)
Definition capped (tp : list Vector3) (pos : Vector3) : list Vector3 :=
  let tp := push tp pos in
  if (trailMax <? length tp)%nat then shift tp else tp.

(** The eviction by distance: the oldest point goes when it is more
    than 1200 behind [offset]. *)
Definition evictBehind (offset : R) (tp : list Vector3) : list Vector3 :=
  match tp with
  | p0 :: _ => if Rlt_dec (x p0) (offset - 1200) then shift tp else tp
  | [] => tp
  end.

(** The controls of a running LINEAR simulation with the trail shown,
    at ratio [beta]. *)
Definition linearRunning (beta : R) (a : App.State) : Prop :=
  App.isRunning a = true /\ App.showTrail a = true /\
  App.scenario a = LINEAR /\ App.orbitSpeed a = beta.

(** The platform is at [L] and the two oldest points of the buffer are
    at x = 0, followed by [n] more. *)
Definition chasing (L : R) (n : nat) (beta : R) (w : App.World) : Prop :=
  linearRunning beta (App.app w) /\
  linearOffset (state (App.canvas w)) = L /\
  exists a b rest,
    trailPoints (state (App.canvas w)) = a :: b :: rest /\
    x a = 0 /\ x b = 0 /\ length rest = n.

(** The user selects the LINEAR scenario, lets two frames pass at rest,
    sets the slider to 0.99 and lets 1516 frames pass. *)
Definition overtakingRun : list App.Event :=
  [App.ScenarioChange LINEAR; App.CanvasFrame; App.CanvasFrame;
   App.SpeedChange 0.99]
  ++ repeat App.CanvasFrame 1515 ++ [App.CanvasFrame].

(* ================================================================== *)
(** ** [Controls.tsx] *)
(* ================================================================== *)

Module Controls.

(** The Lorentz factor behind the label "Slowed: ...x". *)
Definition gamma (speed : R) : R := 1 / sqrt (1 - speed * speed).

End Controls.

(* ================================================================== *)
(** ** The buffers the two views keep beside the simulation state *)
(* ================================================================== *)

(** A [Float32Array] holds binary32 numbers: a store keeps the number
    rounded to binary32, [fround] below, and a read gives the cell
    back as it is.  A store outside the array is dropped; the loops
    below read inside the array only. *)
Module Float32Array.

Definition t : Type := list R.

Definition get (arr : t) (i : nat) : R := nth i arr 0.

Fixpoint set (fround : R -> R) (arr : t) (i : nat) (v : R) : t :=
  match arr, i with
  | [], _ => []
  | _ :: rest, O => fround v :: rest
  | a :: rest, S i => a :: set fround rest i v
  end.

End Float32Array.

(** The trail and the warp star field of [RelativeView.tsx]. *)
Module RelativeBuffers.

Import Float32Array.

(** [new Float32Array(300 * 3)] *)
Definition trailPos : t := repeat 0 (300 * 3).

(** [for (i = arr.length - 1; i >= 3; i--) arr[i] = arr[i-3]] *)
Definition shiftBack (fround : R -> R) (arr : t) : t :=
  fold_left (fun a i => set fround a i (get a (i - 3)))
            (rev (seq 3 (length arr - 3))) arr.

(** The trail part of one frame: the shift, then the photon position in
    the first three cells. *)
Definition recordPhoton (fround : R -> R) (pos : Vector3) (arr : t) : t :=
  let arr := shiftBack fround arr in
  let arr := set fround arr 0 (x pos) in
  let arr := set fround arr 1 (y pos) in
  set fround arr 2 (z pos).




End RelativeBuffers.

(** The trail line of [SimulationCanvas.tsx]. *)
Module CanvasBuffers.

Import Float32Array.

(** [for (let p of state.trailPoints) { posArr[idx++] = p.x; ... }] *)
Definition writeTrail (fround : R -> R) (tp : list Vector3) (posArr : t)
    : t * nat :=
  fold_left
    (fun (acc : t * nat) (p : Vector3) =>
       let '(arr, idx) := acc in
       let arr := set fround arr idx (x p) in
       let arr := set fround arr (idx + 1) (y p) in
       let arr := set fround arr (idx + 2) (z p) in
       (arr, (idx + 3)%nat))
    tp (posArr, 0%nat).

(** The length of the position buffer of the trail line. *)
Definition trailMaxPoints : nat := 5000.

End CanvasBuffers.

(* ================================================================== *)
(** ** Further specification predicates *)
(* ================================================================== *)

Definition norm2 (v : Vector3) : R := x v * x v + y v * y v + z v * z v.

Definition dist2 (a b : Vector3) : R :=
  (x a - x b) * (x a - x b) + (y a - y b) * (y a - y b)
  + (z a - z b) * (z a - z b).

(** [k] frames of the canvas drawn with the same props. *)
Definition frames (p : Props) (k : nat) (m : ThreeRef * SharedSimState.t)
    : ThreeRef * SharedSimState.t :=
  Nat.iter k (frame p) m.

(** The clock of the co-moving view is tilted about x by 0.2 and is
    not rolled about z. *)
Definition relativeClockTilt (sc : RelativeView.Scene) : Prop :=
  ex (RelativeView.clockGroup_rotation sc) = 0.2 /\
  ez (RelativeView.clockGroup_rotation sc) = 0.

(** What the statements on the [Float32Array]s use of the rounding to
    binary32: it keeps the order, it leaves a binary32 number alone,
    and the integers up to 2^24 are binary32 numbers. *)
Definition binary32Rounding (fround : R -> R) : Prop :=
  (forall a b, a <= b -> fround a <= fround b) /\
  (forall a, fround (fround a) = fround a) /\
  (forall n : Z, (Z.abs n <= 16777216)%Z -> fround (IZR n) = IZR n).

(** A number the rounding leaves alone. *)
Definition representable (fround : R -> R) (v : R) : Prop := fround v = v.

(** A rounding of that kind that is not the identity: the numbers
    between -2^24 and 2^24 are kept and the others go to the nearer
    bound. *)
Definition saturate (v : R) : R :=
  if Rle_dec v (-16777216) then -16777216
  else if Rle_dec 16777216 v then 16777216 else v.




(** The cells of a list of points, three per point. *)
Definition flatten (tp : list Vector3) : list R :=
  flat_map (fun p => [x p; y p; z p]) tp.


(* ================================================================== *)
(** ** Kinematics: elementary facts *)
(* ================================================================== *)

Lemma sqrt_one_minus_square (beta : R) :
  validRatio beta -> 0 < sqrt (1 - beta * beta) <= 1.
Proof.
  intros [H0 H1].
  assert (Hpos : 0 < 1 - beta * beta) by nra.
  split.
  - now apply sqrt_lt_R0.
  - rewrite <- sqrt_1 at 2. apply sqrt_le_1_alt. nra.
Qed.

Lemma photonPhaseStep_range (beta : R) :
  validRatio beta -> 0 < photonPhaseStep beta < 1.
Proof.
  intros H. destruct (sqrt_one_minus_square beta H) as [Hlo Hhi].
  unfold photonPhaseStep, vVertical, SPEED_OF_LIGHT, CLOCK_TRAVEL_DIST.
  lra.
Qed.

Lemma bounce_top (phase dir : R) :
  1 <= phase -> bounce phase dir = (1, -1).
Proof.
  intros H. unfold bounce.
  destruct (Rge_dec phase 1); [| lra].
  destruct (Rle_dec 1 0); [lra | reflexivity].
Qed.

Lemma bounce_bottom (phase dir : R) :
  phase <= 0 -> bounce phase dir = (0, 1).
Proof.
  intros H. unfold bounce.
  destruct (Rge_dec phase 1); [lra |].
  destruct (Rle_dec phase 0); [reflexivity | lra].
Qed.

Lemma bounce_between (phase dir : R) :
  0 < phase < 1 -> bounce phase dir = (phase, dir).
Proof.
  intros H. unfold bounce.
  destruct (Rge_dec phase 1); [lra |].
  destruct (Rle_dec phase 0); [lra | reflexivity].
Qed.

(** The fields of a state after a frame, in terms of [advance]. *)
Lemma animate_state (p : Props) (three : ThreeRef) (sh : SharedSimState.t) :
  let st := advance p (state three) in
  let o := position p st (objects three) in
  state (fst (animate p three sh)) =
    mkState (celestialTime st) (shipTime st) (linearOffset st)
            (photonPhase st) (photonDir st)
            (updateTrail p st (photonWorldPosition st o)).
Proof. reflexivity. Qed.

Lemma animate_shared (p : Props) (three : ThreeRef) (sh : SharedSimState.t) :
  snd (animate p three sh) = syncShared (advance p (state three)).
Proof. reflexivity. Qed.

Lemma advance_running (p : Props) (st : SimulationState) :
  isRunning p = true ->
  let beta := orbitSpeedMultiplier p in
  let b := bounce (photonPhase st + photonDir st * photonPhaseStep beta)
                  (photonDir st) in
  advance p st =
    mkState (celestialTime st + CELESTIAL_DT)
            (shipTime st + vShip beta * 0.05)
            (if scenario_eqb (scenario p) LINEAR
             then linearOffset st + vShip beta else linearOffset st)
            (fst b) (snd b) (trailPoints st).
Proof.
  intros Hrun. unfold advance. rewrite Hrun. cbv zeta.
  destruct (bounce _ _); reflexivity.
Qed.

Lemma advance_paused (p : Props) (st : SimulationState) :
  isRunning p = false -> advance p st = st.
Proof. intros H. unfold advance. now rewrite H. Qed.

Lemma advance_bounceSpec (p : Props) (st : SimulationState) :
  isRunning p = true -> validRatio (orbitSpeedMultiplier p) ->
  phaseInRange st -> bounceSpec p st (advance p st).
Proof.
  intros Hrun Hb [Hph Hdir].
  pose proof (photonPhaseStep_range _ Hb) as Hs.
  rewrite (advance_running p st Hrun). unfold bounceSpec, phaseInRange. cbn.
  set (s := photonPhaseStep (orbitSpeedMultiplier p)) in *.
  set (t := photonPhase st + photonDir st * s).
  destruct (Rle_dec 1 t) as [Ht | Ht].
  - rewrite (bounce_top t _ Ht); cbn.
    assert (photonDir st = 1) by (destruct Hdir as [-> | Hd]; [easy | subst t; rewrite Hd in Ht; lra]).
    repeat split; intros; try lra; auto.
  - destruct (Rle_dec t 0) as [Ht0 | Ht0].
    + rewrite (bounce_bottom t _ Ht0); cbn.
      assert (photonDir st = -1) by (destruct Hdir as [Hd | ->]; [subst t; rewrite Hd in Ht0; lra | easy]).
      repeat split; intros; try lra; auto.
    + rewrite (bounce_between t (photonDir st)) by lra; cbn.
      repeat split; intros; try lra; auto.
Qed.

(* ================================================================== *)
(** ** Trail buffer: elementary facts *)
(* ================================================================== *)

Lemma updateTrail_disabled (p : Props) (st : SimulationState) (pos : Vector3) :
  showTrail p = false -> updateTrail p st pos = [].
Proof. intros H. unfold updateTrail. now rewrite H. Qed.

Lemma updateTrail_paused (p : Props) (st : SimulationState) (pos : Vector3) :
  showTrail p = true -> isRunning p = false ->
  updateTrail p st pos = trailPoints st.
Proof. intros Ht Hr. unfold updateTrail. now rewrite Ht, Hr. Qed.

Lemma capped_length (tp : list Vector3) (pos : Vector3) :
  (length tp <= trailMax)%nat -> (length (capped tp pos) <= trailMax)%nat.
Proof.
  intros H. unfold capped, push, shift.
  destruct (Nat.ltb_spec trailMax (length (tp ++ [pos]))) as [Hlt | Hle]; [|exact Hle].
  rewrite length_app in Hlt. cbn [length] in Hlt.
  destruct (tp ++ [pos]) eqn:E; cbn [tl length]; [lia|].
  apply (f_equal (@length _)) in E. rewrite length_app in E. cbn [length] in E. lia.
Qed.

Lemma updateTrail_running (p : Props) (st : SimulationState) (pos : Vector3) :
  showTrail p = true -> isRunning p = true ->
  updateTrail p st pos =
    let tp := capped (trailPoints st) pos in
    if scenario_eqb (scenario p) LINEAR then
      match tp with
      | p0 :: _ =>
          if Rlt_dec (x p0) (linearOffset st - 1200) then shift tp else tp
      | [] => tp
      end
    else tp.
Proof.
  intros Ht Hr. unfold updateTrail. rewrite Ht, Hr. cbn [andb negb].
  fold (capped (trailPoints st) pos). cbv zeta.
  destruct (scenario_eqb (scenario p) LINEAR); cbn [andb]; [|reflexivity].
  destruct (capped (trailPoints st) pos); reflexivity.
Qed.

Lemma updateTrail_length (p : Props) (st : SimulationState) (pos : Vector3) :
  (length (trailPoints st) <= trailMax)%nat ->
  (length (updateTrail p st pos) <= trailMax)%nat.
Proof.
  intros H.
  destruct (showTrail p) eqn:Ht.
  - destruct (isRunning p) eqn:Hr.
    + rewrite updateTrail_running by assumption. cbv zeta.
      pose proof (capped_length (trailPoints st) pos H) as Hc.
      destruct (scenario_eqb (scenario p) LINEAR); [|exact Hc].
      destruct (capped (trailPoints st) pos) as [|p0 tp]; [exact Hc|].
      destruct (Rlt_dec _ _); [|exact Hc].
      cbn [shift tl length] in *. lia.
    + now rewrite updateTrail_paused.
  - rewrite updateTrail_disabled by assumption. cbn. lia.
Qed.

(* ================================================================== *)
(** ** The invariant of the running application *)
(* ================================================================== *)

Lemma scenario_eqb_refl (s : SimulationScenario) : scenario_eqb s s = true.
Proof. destruct s; reflexivity. Qed.

Lemma scenario_eqb_eq (a b : SimulationScenario) :
  scenario_eqb a b = true <-> a = b.
Proof. destruct a, b; cbn; split; intros H; congruence. Qed.

Lemma scenarioEffect_state (sc : SimulationScenario) (three : ThreeRef)
    (sh : SharedSimState.t) :
  state (fst (scenarioEffect sc three sh)) = initialState.
Proof. destruct sc; reflexivity. Qed.

Lemma scenarioEffect_shared (sc : SimulationScenario) (three : ThreeRef)
    (sh : SharedSimState.t) :
  snd (scenarioEffect sc three sh) = SharedSimState.mk 0.5 1.
Proof. reflexivity. Qed.

Lemma initialState_inRange : phaseInRange initialState.
Proof. unfold phaseInRange, initialState; cbn. split; [lra | now left]. Qed.

Lemma animate_phaseInRange (p : Props) (three : ThreeRef) (sh : SharedSimState.t) :
  validRatio (orbitSpeedMultiplier p) -> phaseInRange (state three) ->
  phaseInRange (state (fst (animate p three sh))).
Proof.
  intros Hb Hin. rewrite animate_state. cbv zeta. unfold phaseInRange. cbn.
  destruct (isRunning p) eqn:Hr.
  - exact (proj1 (advance_bounceSpec p _ Hr Hb Hin)).
  - rewrite advance_paused by assumption. exact Hin.
Qed.

Lemma animate_synced (p : Props) (three : ThreeRef) (sh : SharedSimState.t) :
  synced (state (fst (animate p three sh))) (snd (animate p three sh)).
Proof. split; reflexivity. Qed.

Lemma animate_trail_length (p : Props) (three : ThreeRef) (sh : SharedSimState.t) :
  (length (trailPoints (state three)) <= trailMax)%nat ->
  (length (trailPoints (state (fst (animate p three sh)))) <= trailMax)%nat.
Proof.
  intros H. rewrite animate_state. cbv zeta. cbn [trailPoints].
  apply updateTrail_length.
  unfold advance. destruct (isRunning p); [|exact H].
  cbv zeta. destruct (bounce _ _). exact H.
Qed.

(** A re-render either leaves the canvas alone or ends in the reset
    state with the shared record reset. *)
Lemma commit_cases (w : App.World) (a : App.State) :
  let w' := App.commit (App.app w) w a in
  exists sh, App.app w' = App.setShared a sh /\
    ((App.canvas w' = App.canvas w /\ sh = App.sharedSimState a /\
      App.resetKey a = App.resetKey (App.app w))
     \/ (state (App.canvas w') = initialState /\ sh = SharedSimState.mk 0.5 1)).
Proof.
  unfold App.commit.
  destruct (Nat.eqb_spec (App.resetKey a) (App.resetKey (App.app w))) as [Hk | Hk];
    cbn [negb].
  - destruct (scenario_eqb (App.scenario a) (App.scenario (App.app w))); cbn [negb].
    + eexists; split; [reflexivity|]. left. repeat split. exact Hk.
    + pose proof (scenarioEffect_state (App.scenario a) (App.canvas w)
                    (App.sharedSimState a)) as Hs.
      pose proof (scenarioEffect_shared (App.scenario a) (App.canvas w)
                    (App.sharedSimState a)) as Hh.
      destruct (scenarioEffect _ _ _) as [t sh']. cbn [fst snd] in Hs, Hh.
      eexists; split; [reflexivity|]. right. split; [exact Hs | exact Hh].
  - pose proof (scenarioEffect_state (App.scenario a) mount
                  (App.sharedSimState a)) as Hs.
    pose proof (scenarioEffect_shared (App.scenario a) mount
                  (App.sharedSimState a)) as Hh.
    destruct (scenarioEffect _ _ _) as [t sh']. cbn [fst snd] in Hs, Hh.
    eexists; split; [reflexivity|]. right. split; [exact Hs | exact Hh].
Qed.

Lemma commit_phaseInvariant (w : App.World) (a : App.State) :
  phaseInvariant w -> validRatio (App.orbitSpeed a) ->
  phaseInvariant (App.commit (App.app w) w a).
Proof.
  intros [Hin Hb] Hb'.
  destruct (commit_cases w a) as (sh & Happ & [(Hc & _) | (Hst & _)]);
    unfold phaseInvariant; rewrite Happ; cbn.
  - rewrite Hc. auto.
  - rewrite Hst. split; [apply initialState_inRange | exact Hb'].
Qed.

Lemma commit_bufferInvariant (w : App.World) (a : App.State) :
  bufferInvariant w ->
  App.sharedSimState a = App.sharedSimState (App.app w)
    \/ App.resetKey a <> App.resetKey (App.app w) ->
  bufferInvariant (App.commit (App.app w) w a).
Proof.
  intros [Hlen Hsync] Hsh.
  destruct (commit_cases w a) as (sh & Happ & [(Hc & -> & Hk) | (Hst & ->)]);
    unfold bufferInvariant; rewrite Happ; cbn.
  - rewrite Hc. destruct Hsh as [-> | Hne]; [auto | contradiction].
  - rewrite Hst. cbn. split; [lia | split; reflexivity].
Qed.

Lemma step_phaseInvariant (w : App.World) (e : App.Event) :
  App.validEvent e -> phaseInvariant w -> phaseInvariant (App.step w e).
Proof.
  intros Hv Hw. pose proof Hw as (Hin & Hb).
  destruct e; cbn [App.step App.validEvent] in *;
    try (apply commit_phaseInvariant; cbn; auto; fail).
  - pose proof (animate_phaseInRange (App.canvasProps (App.app w)) (App.canvas w)
                  (App.sharedSimState (App.app w)) Hb Hin) as H1.
    destruct (animate _ _ _) as [t s]. cbn [fst snd] in *.
    split; cbn; auto.
  - exact Hw.
  - apply commit_phaseInvariant; [exact Hw | unfold validRatio; cbn; lra].
Qed.

Lemma step_bufferInvariant (w : App.World) (e : App.Event) :
  bufferInvariant w -> bufferInvariant (App.step w e).
Proof.
  intros Hw. pose proof Hw as (Hlen & Hsync).
  destruct e; cbn [App.step] in *;
    try (apply commit_bufferInvariant; cbn; auto; fail).
  - pose proof (animate_trail_length (App.canvasProps (App.app w)) (App.canvas w)
                  (App.sharedSimState (App.app w)) Hlen) as H2.
    pose proof (animate_synced (App.canvasProps (App.app w)) (App.canvas w)
                  (App.sharedSimState (App.app w))) as H3.
    destruct (animate _ _ _) as [t s]. cbn [fst snd] in *.
    split; cbn; auto.
  - exact Hw.
  - apply commit_bufferInvariant; [exact Hw | right; cbn; lia].
Qed.

Lemma initialWorld_phaseInvariant : phaseInvariant App.initialWorld.
Proof.
  unfold phaseInvariant, phaseInRange, validRatio. cbn.
  repeat split; try lra; auto.
Qed.

Lemma initialWorld_bufferInvariant : bufferInvariant App.initialWorld.
Proof.
  unfold bufferInvariant, synced. cbn. repeat split; lia.
Qed.

Lemma run_phaseInvariant (es : list App.Event) (w : App.World) :
  Forall App.validEvent es -> phaseInvariant w -> phaseInvariant (App.run w es).
Proof.
  revert w. induction es as [|e es IH]; intros w Hv Hw; [exact Hw|].
  inversion Hv; subst. cbn. apply IH; [assumption|].
  now apply step_phaseInvariant.
Qed.

Lemma run_bufferInvariant (es : list App.Event) (w : App.World) :
  bufferInvariant w -> bufferInvariant (App.run w es).
Proof.
  revert w. induction es as [|e es IH]; intros w Hw; [exact Hw|].
  cbn. apply IH. now apply step_bufferInvariant.
Qed.

(* ================================================================== *)
(** ** Photon phase: range and bounce *)
(* ================================================================== *)

Lemma animate_bounceSpec (p : Props) (three : ThreeRef) (sh : SharedSimState.t) :
  isRunning p = true -> validRatio (orbitSpeedMultiplier p) ->
  phaseInRange (state three) ->
  bounceSpec p (state three) (state (fst (animate p three sh))).
Proof.
  intros Hr Hb Hin.
  pose proof (advance_bounceSpec p (state three) Hr Hb Hin) as H.
  rewrite animate_state. cbv zeta. exact H.
Qed.

(** A reversal happens only at a mirror, and leaves the photon on it
    heading inwards. *)
Lemma reversal_at_mirror (p : Props) (st st' : SimulationState) :
  validRatio (orbitSpeedMultiplier p) -> phaseInRange st ->
  bounceSpec p st st' -> photonDir st' = - photonDir st ->
  (photonPhase st' = 1 /\ photonDir st' = -1) \/
  (photonPhase st' = 0 /\ photonDir st' = 1).
Proof.
  intros Hb [Hph Hd] (_ & Htop & Hbot & Hmid) Hflip.
  pose proof (photonPhaseStep_range _ Hb) as Hs.
  set (s := photonPhaseStep (orbitSpeedMultiplier p)) in *.
  destruct (Rle_dec 1 (photonPhase st + photonDir st * s)) as [H1 | H1].
  - left. destruct (Htop H1) as [-> ->].
    destruct Hd as [-> | Hd]; [split; lra|]. rewrite Hd in H1. lra.
  - destruct (Rle_dec (photonPhase st + photonDir st * s) 0) as [H0 | H0].
    + right. destruct (Hbot H0) as [-> ->].
      destruct Hd as [Hd | ->]; [|split; lra]. rewrite Hd in H0. lra.
    + destruct Hmid as [_ Hsame]; [lra|].
      rewrite Hsame in Hflip. destruct Hd as [Hd | Hd]; rewrite Hd in Hflip; lra.
Qed.

(** C2.  Along every run of the application whose speed changes stay
    in the slider's range 0 .. 0.99, the photon phase lies in [0, 1]
    and the direction is +1 or -1.  A further running frame at such a
    ratio keeps the phase in [0, 1]; when the step would carry the
    phase to or past a mirror, the phase is set to that mirror and the
    direction is reversed in the same frame, otherwise the phase moves
    by the whole step and the direction is kept; and the frame after a
    reversal does not reverse again. *)
Theorem photon_phase_clamped_and_bounced (es : list App.Event) (p : Props) :
  Forall App.validEvent es ->
  isRunning p = true ->
  validRatio (orbitSpeedMultiplier p) ->
  let w := App.run App.initialWorld es in
  let st := state (App.canvas w) in
  let m' := frame p (App.canvas w, App.sharedSimState (App.app w)) in
  phaseInRange st /\ bounceSpec p st (state (fst m')) /\ noSecondFlip st m'.
Proof.
  intros Hes Hr Hb w st m'.
  pose proof (run_phaseInvariant es _ Hes initialWorld_phaseInvariant) as (Hin & _).
  fold w in Hin. fold st in Hin.
  assert (Hspec : bounceSpec p st (state (fst m')))
    by (apply animate_bounceSpec; assumption).
  split; [exact Hin|]. split; [exact Hspec|].
  intros Hflip q Hrq Hbq st''.
  pose proof (reversal_at_mirror p st _ Hb Hin Hspec Hflip) as Hmirror.
  pose proof (photonPhaseStep_range _ Hbq) as Hs.
  assert (Hin' : phaseInRange (state (fst m'))) by exact (proj1 Hspec).
  pose proof (animate_bounceSpec q (fst m') (snd m') Hrq Hbq Hin')
    as (_ & _ & _ & Hmid).
  fold (frame q m') in Hmid. fold st'' in Hmid.
  destruct Hmirror as [[Hp Hd] | [Hp Hd]]; rewrite Hp, Hd in Hmid.
  - destruct Hmid as [Hph Hdir]; [lra|].
    rewrite Hph. split; [congruence | lra].
  - destruct Hmid as [Hph Hdir]; [lra|].
    rewrite Hph. split; [congruence | lra].
Qed.

(** A run that changes the ratio to 0.6 between two frames, followed by
    a running frame at 0.6. *)
Lemma photon_phase_clamped_and_bounced_witness :
  let es := [App.CanvasFrame; App.SpeedChange 0.6; App.CanvasFrame] in
  let p := mkProps true 0.6 true LINEAR in
  let w := App.run App.initialWorld es in
  let st := state (App.canvas w) in
  let m' := frame p (App.canvas w, App.sharedSimState (App.app w)) in
  phaseInRange st /\ bounceSpec p st (state (fst m')) /\ noSecondFlip st m'.
Proof.
  apply (photon_phase_clamped_and_bounced
           [App.CanvasFrame; App.SpeedChange 0.6; App.CanvasFrame]
           (mkProps true 0.6 true LINEAR)).
  - repeat constructor; cbn; lra.
  - reflexivity.
  - unfold validRatio; cbn; lra.
Defined.

(* ================================================================== *)
(** ** The shared record and the co-moving view *)
(* ================================================================== *)

(** Whenever the canvas draws and the co-moving view draws next, the
    shared record holds the phase and direction
    the canvas has just computed, the co-moving view places its photon
    at height [-3 + phase * 6] of its clock for exactly that phase, and
    its placement is the same whatever its own [isRunning] and [speed]
    props are: it derives nothing from the ratio or from time. *)
Theorem relative_view_uses_written_phase
    (w : App.World) (rp : RelativeView.Props) :
  let w1 := App.step w App.CanvasFrame in
  let written := App.sharedSimState (App.app w1) in
  let w2 := App.step w1 App.RelativeFrame in
  SharedSimState.photonPhase written = photonPhase (state (App.canvas w1)) /\
  SharedSimState.photonDir written = photonDir (state (App.canvas w1)) /\
  RelativeView.currentPhase written = photonPhase (state (App.canvas w1)) /\
  RelativeView.photon_position (App.relative w2) =
    applyEuler (vec3 0 (- 3 + photonPhase (state (App.canvas w1)) * 6) 0)
               (RelativeView.clockGroup_rotation (App.relative w1)) /\
  RelativeView.photon_position
    (RelativeView.animate rp written (App.relative w1)) =
    RelativeView.photon_position (App.relative w2).
Proof.
  cbn [App.step].
  pose proof (animate_synced (App.canvasProps (App.app w)) (App.canvas w)
                (App.sharedSimState (App.app w))) as [Hp Hd].
  destruct (animate _ _ _) as [three sh]. cbn [fst snd] in Hp, Hd.
  cbn. unfold RelativeView.currentPhase.
  repeat split; auto.
  rewrite Hp. do 2 f_equal. lra.
Qed.

(** C10.  A frame of the canvas overwrites the shared record with the
    phase and direction of its state whatever its props (running or
    paused) and whatever the record held; the scenario effect leaves
    both at 0.5 and +1; and after every sequence of frames, control
    events, scenario changes and resets the shared record equals the
    phase and direction of the canvas state, so the phase the co-moving
    view reads is the one of the canvas. *)
Theorem shared_record_follows_state
    (es : list App.Event) (p : Props) (sc : SimulationScenario)
    (three : ThreeRef) (sh : SharedSimState.t) :
  snd (animate p three sh) = syncShared (state (fst (animate p three sh))) /\
  synced (state (fst (animate p three sh))) (snd (animate p three sh)) /\
  synced (state (fst (scenarioEffect sc three sh)))
         (snd (scenarioEffect sc three sh)) /\
  let w := App.run App.initialWorld es in
  synced (state (App.canvas w)) (App.sharedSimState (App.app w)) /\
  RelativeView.currentPhase (App.sharedSimState (App.app w)) =
    photonPhase (state (App.canvas w)).
Proof.
  split; [reflexivity|]. split; [apply animate_synced|].
  split.
  - rewrite scenarioEffect_state, scenarioEffect_shared. split; reflexivity.
  - intros w.
    pose proof (run_bufferInvariant es _ initialWorld_bufferInvariant) as [_ Hs].
    fold w in Hs. split; [exact Hs | exact (proj1 Hs)].
Qed.

(* ================================================================== *)
(** ** Reset *)
(* ================================================================== *)

(** C9.  The scenario effect ends, from any state, in the state
    [celestialTime = 0, shipTime = 0, linearOffset = 0, photonPhase =
    0.5, photonDir = 1, trailPoints = []] with the shared record at
    0.5 and +1; so does a change to another scenario and so does a
    click on reset, each as one step of the application; and a second
    reset leaves the canvas and the shared record as the first left
    them. *)
Theorem reset_restores_defaults
    (w : App.World) (s : SimulationScenario)
    (three : ThreeRef) (sh : SharedSimState.t) :
  s <> App.scenario (App.app w) ->
  let defaults := mkState 0 0 0 0.5 1 [] in
  let sharedDefaults := SharedSimState.mk 0.5 1 in
  let w1 := App.step w App.ResetClick in
  let w2 := App.step w1 App.ResetClick in
  let ws := App.step w (App.ScenarioChange s) in
  (state (fst (scenarioEffect s three sh)) = defaults /\
   snd (scenarioEffect s three sh) = sharedDefaults) /\
  (state (App.canvas ws) = defaults /\
   App.sharedSimState (App.app ws) = sharedDefaults) /\
  (state (App.canvas w1) = defaults /\
   App.sharedSimState (App.app w1) = sharedDefaults) /\
  (App.canvas w2 = App.canvas w1 /\
   App.sharedSimState (App.app w2) = App.sharedSimState (App.app w1)).
Proof.
  intros Hs defaults sharedDefaults w1 w2 ws.
  split; [split; [apply scenarioEffect_state | reflexivity]|].
  split.
  - subst ws. cbn [App.step]. unfold App.commit. cbn.
    rewrite Nat.eqb_refl. cbn [negb].
    destruct (scenario_eqb s (App.scenario (App.app w))) eqn:E.
    + apply scenario_eqb_eq in E. contradiction.
    + cbn [negb]. destruct s; cbn; split; reflexivity.
  - assert (Hreset : forall v,
      App.canvas (App.step v App.ResetClick)
        = fst (scenarioEffect (App.scenario (App.app v)) mount sharedDefaults) /\
      App.sharedSimState (App.app (App.step v App.ResetClick)) = sharedDefaults /\
      App.scenario (App.app (App.step v App.ResetClick))
        = App.scenario (App.app v)).
    { intros v. cbn [App.step]. unfold App.commit. cbn.
      replace (App.resetKey (App.app v) + 1 =? App.resetKey (App.app v))%nat
        with false by (symmetry; apply Nat.eqb_neq; lia).
      cbn [negb]. destruct (App.scenario (App.app v)) eqn:E; cbn; repeat split; auto. }
    destruct (Hreset w) as (Hc1 & Hs1 & Hsc1).
    destruct (Hreset w1) as (Hc2 & Hs2 & _).
    fold w1 in Hc1, Hs1, Hsc1. fold w2 in Hc2, Hs2.
    split; [split|split].
    + rewrite Hc1. apply scenarioEffect_state.
    + exact Hs1.
    + rewrite Hc2, Hc1, Hsc1. reflexivity.
    + now rewrite Hs2, Hs1.
Qed.

(** A world in the galaxy scenario, switched to the linear one. *)
Lemma reset_restores_defaults_witness :
  let w := App.step (App.step App.initialWorld App.CanvasFrame)
                    (App.ScenarioChange GALAXY) in
  let three := App.canvas w in
  let sh := App.sharedSimState (App.app w) in
  let defaults := mkState 0 0 0 0.5 1 [] in
  let sharedDefaults := SharedSimState.mk 0.5 1 in
  let w1 := App.step w App.ResetClick in
  let w2 := App.step w1 App.ResetClick in
  let ws := App.step w (App.ScenarioChange LINEAR) in
  (state (fst (scenarioEffect LINEAR three sh)) = defaults /\
   snd (scenarioEffect LINEAR three sh) = sharedDefaults) /\
  (state (App.canvas ws) = defaults /\
   App.sharedSimState (App.app ws) = sharedDefaults) /\
  (state (App.canvas w1) = defaults /\
   App.sharedSimState (App.app w1) = sharedDefaults) /\
  (App.canvas w2 = App.canvas w1 /\
   App.sharedSimState (App.app w2) = App.sharedSimState (App.app w1)).
Proof.
  intros w three sh.
  apply (reset_restores_defaults w LINEAR three sh).
  subst w. cbn. discriminate.
Defined.

(* ================================================================== *)
(** ** Speeds, contraction and the two clocks *)
(* ================================================================== *)

Lemma sqrt_064 : sqrt (1 - 0.6 * 0.6) = 0.8.
Proof.
  replace (1 - 0.6 * 0.6) with (0.8 * 0.8) by lra.
  apply sqrt_square. lra.
Qed.

Lemma speeds_compose (beta : R) :
  validRatio beta ->
  vVertical beta * vVertical beta + vShip beta * vShip beta
    = SPEED_OF_LIGHT * SPEED_OF_LIGHT.
Proof.
  intros [H0 H1]. unfold vVertical, vShip.
  assert (Hs : sqrt (1 - beta * beta) * sqrt (1 - beta * beta) = 1 - beta * beta)
    by (apply sqrt_sqrt; nra).
  set (r := sqrt (1 - beta * beta)) in *.
  replace (r * SPEED_OF_LIGHT * (r * SPEED_OF_LIGHT))
    with (r * r * (SPEED_OF_LIGHT * SPEED_OF_LIGHT)) by ring.
  rewrite Hs. ring.
Qed.

(** A running frame moves the phase by no more than one step. *)
Lemma phase_moves_at_most_step (p : Props) (st st' : SimulationState) :
  validRatio (orbitSpeedMultiplier p) -> phaseInRange st ->
  bounceSpec p st st' ->
  Rabs (photonPhase st' - photonPhase st)
    <= photonPhaseStep (orbitSpeedMultiplier p).
Proof.
  intros Hb [Hph Hd] (_ & Htop & Hbot & Hmid).
  pose proof (photonPhaseStep_range _ Hb) as Hs.
  set (s := photonPhaseStep (orbitSpeedMultiplier p)) in *.
  apply Rabs_le.
  destruct (Rle_dec 1 (photonPhase st + photonDir st * s)) as [H1 | H1].
  - destruct (Htop H1) as [-> _]. destruct Hd as [Hd | Hd]; rewrite Hd in H1; lra.
  - destruct (Rle_dec (photonPhase st + photonDir st * s) 0) as [H0 | H0].
    + destruct (Hbot H0) as [-> _]. destruct Hd as [Hd | Hd]; rewrite Hd in H0; lra.
    + destruct Hmid as [-> _]; [lra|]. destruct Hd as [-> | ->]; lra.
Qed.

(** C3.  For a ratio [beta] in 0 .. 0.99, a frame computes the vertical
    speed [sqrt (1 - beta^2) * c] and the horizontal speed [beta * c]
    (with [c = SPEED_OF_LIGHT]; the two compose to [c]), and its phase
    step is the vertical speed over the mirror distance times a tick
    increment of 1: the frame takes no elapsed time.  A running frame
    moves the phase by exactly that step in the direction of travel
    when no mirror is reached, and by no more than it otherwise.  At
    [beta = 0.6] the vertical speed is [0.8 * c], the horizontal speed
    [0.6 * c] and the contraction 0.8, exactly over the reals and
    within 1e-6 in binary64 arithmetic. *)
Theorem speeds_and_phase_step
    (beta : R) (p : Props) (three : ThreeRef) (sh : SharedSimState.t) :
  validRatio beta ->
  isRunning p = true ->
  orbitSpeedMultiplier p = beta ->
  phaseInRange (state three) ->
  let st := state three in
  let st' := state (fst (animate p three sh)) in
  let target := photonPhase st + photonDir st * photonPhaseStep beta in
  (vVertical beta = sqrt (1 - beta * beta) * SPEED_OF_LIGHT /\
   vShip beta = beta * SPEED_OF_LIGHT /\
   vVertical beta * vVertical beta + vShip beta * vShip beta
     = SPEED_OF_LIGHT * SPEED_OF_LIGHT /\
   photonPhaseStep beta = vVertical beta / CLOCK_TRAVEL_DIST * 1) /\
  ((0 < target < 1 -> photonPhase st' = target) /\
   Rabs (photonPhase st' - photonPhase st) <= photonPhaseStep beta) /\
  (Rabs (vVertical 0.6 - 0.8 * SPEED_OF_LIGHT) < 1e-6 /\
   Rabs (vShip 0.6 - 0.6 * SPEED_OF_LIGHT) < 1e-6 /\
   Rabs (contraction 0.6 - 0.8) < 1e-6) /\
  (Binary64.within (Binary64.vVertical 0.6)
                   (0.8 * Binary64.SPEED_OF_LIGHT) 1e-6 = true /\
   Binary64.within (Binary64.vShip 0.6)
                   (0.6 * Binary64.SPEED_OF_LIGHT) 1e-6 = true /\
   Binary64.within (Binary64.contraction 0.6) 0.8 1e-6 = true)%float.
Proof.
  intros Hb Hr Hbeta Hin st st' target.
  split; [|split; [|split]].
  - split; [reflexivity|]. split; [reflexivity|].
    split; [now apply speeds_compose|].
    unfold photonPhaseStep, CLOCK_TRAVEL_DIST. lra.
  - subst beta.
    pose proof (animate_bounceSpec p three sh Hr Hb Hin) as Hspec.
    fold st st' in Hspec.
    split.
    + intros Ht. destruct Hspec as (_ & _ & _ & Hmid). now apply Hmid.
    + now apply phase_moves_at_most_step.
  - unfold vVertical, vShip, contraction, SPEED_OF_LIGHT. rewrite sqrt_064.
    repeat split.
    + replace (0.8 * 0.8 - 0.8 * 0.8) with 0 by lra. rewrite Rabs_R0. lra.
    + replace (0.6 * 0.8 - 0.6 * 0.8) with 0 by lra. rewrite Rabs_R0. lra.
    + replace (0.8 - 0.8) with 0 by lra. rewrite Rabs_R0. lra.
  - repeat split; vm_compute; reflexivity.
Qed.

(** The first frame of the application, at the ratio 0.6. *)
Lemma speeds_and_phase_step_witness :
  let p := mkProps true 0.6 true EARTH_ORBIT in
  let three := mount in
  let sh := SharedSimState.mk 0.5 1 in
  let st := state three in
  let st' := state (fst (animate p three sh)) in
  let target := photonPhase st + photonDir st * photonPhaseStep 0.6 in
  (vVertical 0.6 = sqrt (1 - 0.6 * 0.6) * SPEED_OF_LIGHT /\
   vShip 0.6 = 0.6 * SPEED_OF_LIGHT /\
   vVertical 0.6 * vVertical 0.6 + vShip 0.6 * vShip 0.6
     = SPEED_OF_LIGHT * SPEED_OF_LIGHT /\
   photonPhaseStep 0.6 = vVertical 0.6 / CLOCK_TRAVEL_DIST * 1) /\
  ((0 < target < 1 -> photonPhase st' = target) /\
   Rabs (photonPhase st' - photonPhase st) <= photonPhaseStep 0.6) /\
  (Rabs (vVertical 0.6 - 0.8 * SPEED_OF_LIGHT) < 1e-6 /\
   Rabs (vShip 0.6 - 0.6 * SPEED_OF_LIGHT) < 1e-6 /\
   Rabs (contraction 0.6 - 0.8) < 1e-6) /\
  (Binary64.within (Binary64.vVertical 0.6)
                   (0.8 * Binary64.SPEED_OF_LIGHT) 1e-6 = true /\
   Binary64.within (Binary64.vShip 0.6)
                   (0.6 * Binary64.SPEED_OF_LIGHT) 1e-6 = true /\
   Binary64.within (Binary64.contraction 0.6) 0.8 1e-6 = true)%float.
Proof.
  apply (speeds_and_phase_step 0.6 (mkProps true 0.6 true EARTH_ORBIT)
           mount (SharedSimState.mk 0.5 1)).
  - unfold validRatio; lra.
  - reflexivity.
  - reflexivity.
  - apply initialState_inRange.
Defined.

Lemma contraction_zero : contraction 0 = 1.
Proof.
  unfold contraction. replace (1 - 0 * 0) with 1 by lra. apply sqrt_1.
Qed.







(* ================================================================== *)
(** ** Pause *)
(* ================================================================== *)

Lemma advance_trailPoints (p : Props) (st : SimulationState) :
  trailPoints (advance p st) = trailPoints st.
Proof.
  unfold advance. destruct (isRunning p); [|reflexivity].
  cbv zeta. destruct (bounce _ _). reflexivity.
Qed.

Lemma animate_trailPoints (p : Props) (three : ThreeRef) (sh : SharedSimState.t) :
  trailPoints (state (fst (animate p three sh)))
    = updateTrail p (advance p (state three))
        (photon_position (objects (fst (animate p three sh)))).
Proof. reflexivity. Qed.



Lemma capped_short (tp : list Vector3) (pos : Vector3) :
  (length tp < trailMax)%nat -> capped tp pos = tp ++ [pos].
Proof.
  intros H. unfold capped, push.
  destruct (Nat.ltb_spec trailMax (length (tp ++ [pos]))) as [Hlt | Hle];
    [|reflexivity].
  rewrite length_app in Hlt. cbn [length] in Hlt. lia.
Qed.

Lemma trailMax_pos : (0 < trailMax)%nat.
Proof. unfold trailMax. lia. Qed.

(** A re-render that changes neither the key nor the scenario leaves
    the canvas and the shared record alone. *)
Lemma commit_keeps_canvas (w : App.World) (a : App.State) :
  App.resetKey a = App.resetKey (App.app w) ->
  App.scenario a = App.scenario (App.app w) ->
  App.canvas (App.commit (App.app w) w a) = App.canvas w /\
  App.app (App.commit (App.app w) w a) = a.
Proof.
  intros Hk Hs. unfold App.commit. rewrite Hk, Hs.
  rewrite Nat.eqb_refl, scenario_eqb_refl. cbn. split; [reflexivity|].
  now destruct a.
Qed.


(* ================================================================== *)
(** ** Trail buffer *)
(* ================================================================== *)

(** The rotation [positionLinear] gives the clock maps its z axis onto
    the axis of travel. *)
Lemma clock_axis_along_travel :
  applyEuler (vec3 0 0 1) (euler 0.3 (PI / 2) 0) = vec3 1 0 0.
Proof.
  unfold applyEuler, rotateX, rotateY, rotateZ. cbn.
  rewrite sin_0, cos_0, sin_PI2, cos_PI2. f_equal; ring.
Qed.

(** In the LINEAR scenario the mirror axis of the clock lies across the
    travel: the photon is at the platform's x. *)
Lemma photon_x_linear (p : Props) (st : SimulationState) (o : SceneObjects) :
  scenario p = LINEAR ->
  x (photonWorldPosition st (position p st o)) = linearOffset st.
Proof.
  intros Hsc. unfold position. rewrite Hsc. cbn.
  rewrite sin_0, cos_0. ring.
Qed.

Lemma animate_photon_x_linear (p : Props) (three : ThreeRef)
    (sh : SharedSimState.t) :
  scenario p = LINEAR ->
  x (photon_position (objects (fst (animate p three sh))))
    = linearOffset (state (fst (animate p three sh))).
Proof.
  intros Hsc. unfold animate. cbn [fst objects photon_position state linearOffset].
  now apply photon_x_linear.
Qed.

(** The buffer after a running frame with the trail shown. *)
Lemma animate_trail_running (p : Props) (three : ThreeRef)
    (sh : SharedSimState.t) :
  showTrail p = true -> isRunning p = true ->
  let m := animate p three sh in
  let tp := capped (trailPoints (state three))
                   (photon_position (objects (fst m))) in
  trailPoints (state (fst m)) =
    if scenario_eqb (scenario p) LINEAR
    then evictBehind (linearOffset (state (fst m))) tp
    else tp.
Proof.
  intros Ht Hr. cbv zeta. rewrite animate_trailPoints.
  rewrite updateTrail_running by assumption. cbv zeta.
  rewrite advance_trailPoints. reflexivity.
Qed.

Lemma capped_suffix (tp : list Vector3) (pos : Vector3) :
  exists k, (k <= 1)%nat /\ capped tp pos = skipn k (tp ++ [pos]).
Proof.
  unfold capped, push, shift.
  destruct (trailMax <? length (tp ++ [pos]))%nat.
  - exists 1%nat. split; [lia|]. now destruct (tp ++ [pos]).
  - exists 0%nat. split; [lia | reflexivity].
Qed.

Lemma evictBehind_suffix (offset : R) (tp : list Vector3) :
  exists k, (k <= 1)%nat /\ evictBehind offset tp = skipn k tp.
Proof.
  destruct tp as [|p0 tp]; cbn.
  - exists 0%nat. split; [lia | reflexivity].
  - destruct (Rlt_dec _ _).
    + exists 1%nat. split; [lia | reflexivity].
    + exists 0%nat. split; [lia | reflexivity].
Qed.

(** C7.  After every sequence of frames and control events the buffer
    holds at most [trailMax] = 5000 points.  A running frame with the
    trail shown appends the photon position and drops points from the
    front only (at most two), outside the LINEAR scenario the oldest
    one exactly when the append made 5001.  A frame with the trail
    hidden leaves the buffer empty, running or not; the next frame with
    the trail shown then holds the single new point if it runs, and
    none if it is paused. *)
Theorem trail_bounded_and_cleared
    (es : list App.Event) (p q r : Props)
    (three : ThreeRef) (sh : SharedSimState.t) :
  showTrail p = false ->
  showTrail q = true ->
  showTrail r = true -> isRunning r = true ->
  let w := App.run App.initialWorld es in
  let hidden := frame p (three, sh) in
  let shown := frame q hidden in
  let next := frame r (three, sh) in
  let old := trailPoints (state three) in
  let pos := photon_position (objects (fst next)) in
  (length (trailPoints (state (App.canvas w))) <= trailMax)%nat /\
  ((length old <= trailMax)%nat ->
     (length (trailPoints (state (fst next))) <= trailMax)%nat) /\
  (exists k, (k <= 2)%nat /\
     trailPoints (state (fst next)) = skipn k (old ++ [pos])) /\
  (scenario r <> LINEAR ->
     trailPoints (state (fst next)) =
       if (length old <? trailMax)%nat then old ++ [pos]
       else tl (old ++ [pos])) /\
  trailPoints (state (fst hidden)) = [] /\
  trailPoints (state (fst shown)) =
    if isRunning q then [photon_position (objects (fst shown))] else [].
Proof.
  intros Hp Hq Hr Hrun w hidden shown next old pos.
  assert (Hnext : trailPoints (state (fst next)) =
                    if scenario_eqb (scenario r) LINEAR
                    then evictBehind (linearOffset (state (fst next)))
                                     (capped old pos)
                    else capped old pos)
    by exact (animate_trail_running r three sh Hr Hrun).
  assert (Hhidden : trailPoints (state (fst hidden)) = []).
  { subst hidden. unfold frame. rewrite animate_trailPoints.
    now apply updateTrail_disabled. }
  split.
  { exact (proj1 (run_bufferInvariant es _ initialWorld_bufferInvariant)). }
  split.
  { intros Hlen. subst next. unfold frame. now apply animate_trail_length. }
  split.
  { rewrite Hnext.
    destruct (capped_suffix old pos) as (k1 & Hk1 & ->).
    destruct (scenario_eqb (scenario r) LINEAR).
    - destruct (evictBehind_suffix (linearOffset (state (fst next)))
                  (skipn k1 (old ++ [pos]))) as (k2 & Hk2 & ->).
      exists (k2 + k1)%nat. split; [lia|]. apply skipn_skipn.
    - exists k1. split; [lia | reflexivity]. }
  split.
  { intros Hsc. rewrite Hnext.
    destruct (scenario_eqb (scenario r) LINEAR) eqn:E;
      [apply scenario_eqb_eq in E; contradiction|].
    unfold capped, push, shift. rewrite length_app. cbn [length].
    destruct (Nat.ltb_spec trailMax (length old + 1));
      destruct (Nat.ltb_spec (length old) trailMax); try lia; reflexivity. }
  split; [exact Hhidden|].
  destruct (isRunning q) eqn:Hrq.
  - assert (Hs : trailPoints (state (fst shown)) =
                   if scenario_eqb (scenario q) LINEAR
                   then evictBehind (linearOffset (state (fst shown)))
                          (capped (trailPoints (state (fst hidden)))
                                  (photon_position (objects (fst shown))))
                   else capped (trailPoints (state (fst hidden)))
                               (photon_position (objects (fst shown))))
      by exact (animate_trail_running q (fst hidden) (snd hidden) Hq Hrq).
    rewrite Hhidden in Hs.
    rewrite capped_short in Hs by (cbn; apply trailMax_pos).
    rewrite Hs. cbn [app].
    destruct (scenario_eqb (scenario q) LINEAR) eqn:E; [|reflexivity].
    apply scenario_eqb_eq in E. cbn [evictBehind].
    assert (Hx : x (photon_position (objects (fst shown)))
                 = linearOffset (state (fst shown)))
      by exact (animate_photon_x_linear q (fst hidden) (snd hidden) E).
    destruct (Rlt_dec _ _) as [Hlt | _]; [|reflexivity].
    rewrite Hx in Hlt. lra.
  - subst shown. unfold frame. rewrite animate_trailPoints.
    rewrite updateTrail_paused by assumption.
    rewrite advance_trailPoints. exact Hhidden.
Qed.

(** The trail hidden for one frame and shown again, in the LINEAR
    scenario. *)
Lemma trail_bounded_and_cleared_witness :
  let es := [App.CanvasFrame; App.ToggleTrail; App.CanvasFrame] in
  let p := mkProps true 0.5 false LINEAR in
  let q := mkProps true 0.5 true LINEAR in
  let r := mkProps true 0.5 true LINEAR in
  let three := mount in
  let sh := SharedSimState.mk 0.5 1 in
  let w := App.run App.initialWorld es in
  let hidden := frame p (three, sh) in
  let shown := frame q hidden in
  let next := frame r (three, sh) in
  let old := trailPoints (state three) in
  let pos := photon_position (objects (fst next)) in
  (length (trailPoints (state (App.canvas w))) <= trailMax)%nat /\
  ((length old <= trailMax)%nat ->
     (length (trailPoints (state (fst next))) <= trailMax)%nat) /\
  (exists k, (k <= 2)%nat /\
     trailPoints (state (fst next)) = skipn k (old ++ [pos])) /\
  (scenario r <> LINEAR ->
     trailPoints (state (fst next)) =
       if (length old <? trailMax)%nat then old ++ [pos]
       else tl (old ++ [pos])) /\
  trailPoints (state (fst hidden)) = [] /\
  trailPoints (state (fst shown)) =
    if isRunning q then [photon_position (objects (fst shown))] else [].
Proof.
  apply (trail_bounded_and_cleared
           [App.CanvasFrame; App.ToggleTrail; App.CanvasFrame]
           (mkProps true 0.5 false LINEAR) (mkProps true 0.5 true LINEAR)
           (mkProps true 0.5 true LINEAR) mount (SharedSimState.mk 0.5 1));
    reflexivity.
Defined.

(** C8, as the code has it.  A running LINEAR frame with the trail
    shown appends the photon position, which is at the platform's x,
    evicts by count, and then examines the oldest remaining point
    only: that point is evicted when its x is more than 1200 behind
    [linearOffset], and no other point is evicted by distance in that
    frame. *)
Theorem linear_trail_evicts_oldest_only
    (p : Props) (three : ThreeRef) (sh : SharedSimState.t) :
  scenario p = LINEAR -> showTrail p = true -> isRunning p = true ->
  let m := animate p three sh in
  let st' := state (fst m) in
  let pos := photon_position (objects (fst m)) in
  let tp := capped (trailPoints (state three)) pos in
  x pos = linearOffset st' /\
  trailPoints st' = evictBehind (linearOffset st') tp /\
  (forall p0 rest, tp = p0 :: rest ->
     x p0 < linearOffset st' - 1200 -> trailPoints st' = rest) /\
  (forall p0 rest, tp = p0 :: rest ->
     ~ x p0 < linearOffset st' - 1200 -> trailPoints st' = p0 :: rest).
Proof.
  intros Hsc Ht Hr m st' pos tp.
  assert (Htrail : trailPoints st' = evictBehind (linearOffset st') tp).
  { pose proof (animate_trail_running p three sh Ht Hr) as H.
    cbv zeta in H. rewrite Hsc in H. exact H. }
  split; [now apply animate_photon_x_linear|].
  split; [exact Htrail|].
  split; intros p0 rest E Hx; rewrite Htrail, E; cbn [evictBehind];
    destruct (Rlt_dec _ _); try contradiction; reflexivity.
Qed.

(** A running LINEAR frame at the ratio 0.99 from the mounted canvas. *)
Lemma linear_trail_evicts_oldest_only_witness :
  let p := mkProps true 0.99 true LINEAR in
  let three := mount in
  let sh := SharedSimState.mk 0.5 1 in
  let m := animate p three sh in
  let st' := state (fst m) in
  let pos := photon_position (objects (fst m)) in
  let tp := capped (trailPoints (state three)) pos in
  x pos = linearOffset st' /\
  trailPoints st' = evictBehind (linearOffset st') tp /\
  (forall p0 rest, tp = p0 :: rest ->
     x p0 < linearOffset st' - 1200 -> trailPoints st' = rest) /\
  (forall p0 rest, tp = p0 :: rest ->
     ~ x p0 < linearOffset st' - 1200 -> trailPoints st' = p0 :: rest).
Proof.
  apply (linear_trail_evicts_oldest_only
           (mkProps true 0.99 true LINEAR) mount (SharedSimState.mk 0.5 1));
    reflexivity.
Defined.

(** *** A run in which points fall behind unexamined *)

Lemma linear_canvas_frame (beta : R) (w : App.World) :
  linearRunning beta (App.app w) ->
  let w' := App.step w App.CanvasFrame in
  let L' := linearOffset (state (App.canvas w)) + beta * 0.8 in
  linearRunning beta (App.app w') /\
  linearOffset (state (App.canvas w')) = L' /\
  exists pos, x pos = L' /\
    trailPoints (state (App.canvas w'))
      = evictBehind L' (capped (trailPoints (state (App.canvas w))) pos).
Proof.
  intros (Hr & Ht & Hsc & Hb). cbn [App.step].
  set (p := App.canvasProps (App.app w)).
  assert (Hp : scenario p = LINEAR /\ showTrail p = true /\ isRunning p = true
               /\ orbitSpeedMultiplier p = beta) by (subst p; cbn; auto).
  destruct Hp as (Hpsc & Hpt & Hpr & Hpb). clearbody p.
  pose proof (animate_photon_x_linear p (App.canvas w)
                (App.sharedSimState (App.app w)) Hpsc) as Hx.
  pose proof (animate_trail_running p (App.canvas w)
                (App.sharedSimState (App.app w)) Hpt Hpr) as Htrail.
  cbv zeta in Htrail. rewrite Hpsc in Htrail. cbn [scenario_eqb] in Htrail.
  assert (HL : linearOffset (state (fst (animate p (App.canvas w)
                                (App.sharedSimState (App.app w)))))
               = linearOffset (state (App.canvas w)) + beta * 0.8).
  { rewrite animate_state. cbv zeta. cbn [linearOffset].
    rewrite (advance_running p _ Hpr). cbn. rewrite Hpsc, Hpb. reflexivity. }
  destruct (animate p _ _) as [three sh'] eqn:E. cbn [fst] in *.
  split; [unfold linearRunning; cbn; auto|].
  split; [cbn; exact HL|].
  exists (photon_position (objects three)). cbn [App.canvas].
  rewrite <- HL. split; [exact Hx | exact Htrail].
Qed.

Lemma chasing_step (L : R) (n : nat) (beta : R) (w : App.World) :
  chasing L n beta w ->
  (n + 2 < trailMax)%nat ->
  L + beta * 0.8 <= 1200 ->
  chasing (L + beta * 0.8) (S n) beta (App.step w App.CanvasFrame).
Proof.
  intros (Hctl & HL & a & b & rest & Htp & Ha & Hb & Hn) Hlen Hnear.
  destruct (linear_canvas_frame beta w Hctl) as (Hctl' & HL' & pos & Hx & Htp').
  rewrite HL in HL', Htp', Hx. rewrite Htp in Htp'.
  rewrite capped_short in Htp' by (cbn [length]; lia).
  cbn [app evictBehind] in Htp'.
  destruct (Rlt_dec (x a) (L + beta * 0.8 - 1200)) as [Hlt | _]; [lra|].
  split; [exact Hctl'|]. split; [exact HL'|].
  exists a, b, (rest ++ [pos]). repeat split; auto.
  rewrite length_app. cbn [length]. lia.
Qed.

Lemma chasing_run (k : nat) :
  forall (L : R) (n : nat) (w : App.World),
    chasing L n 0.99 w ->
    (n + k + 1 < trailMax)%nat ->
    L + INR k * (0.99 * 0.8) <= 1200 ->
    chasing (L + INR k * (0.99 * 0.8)) (n + k) 0.99
            (App.run w (repeat App.CanvasFrame k)).
Proof.
  induction k as [|k IH]; intros L n w Hw Hlen Hnear.
  - cbn [repeat App.run fold_left INR].
    replace (L + 0 * (0.99 * 0.8)) with L by lra.
    now rewrite Nat.add_0_r.
  - rewrite S_INR in *. pose proof (pos_INR k) as Hk.
    cbn [repeat App.run fold_left].
    replace (L + (INR k + 1) * (0.99 * 0.8))
      with (L + 0.99 * 0.8 + INR k * (0.99 * 0.8)) by lra.
    replace (n + S k)%nat with (S n + k)%nat by lia.
    apply IH.
    + apply chasing_step; [exact Hw | lia | nra].
    + lia.
    + lra.
Qed.

Lemma run_app (w : App.World) (es es' : list App.Event) :
  App.run w (es ++ es') = App.run (App.run w es) es'.
Proof. apply fold_left_app. Qed.

(** A frame at rest at the origin appends a point at x = 0. *)
Lemma resting_frame_appends (w : App.World) (tp : list Vector3) :
  linearRunning 0 (App.app w) ->
  linearOffset (state (App.canvas w)) = 0 ->
  trailPoints (state (App.canvas w)) = tp ->
  (length tp < trailMax)%nat ->
  (forall p0, In p0 tp -> x p0 = 0) ->
  let w' := App.step w App.CanvasFrame in
  linearRunning 0 (App.app w') /\
  linearOffset (state (App.canvas w')) = 0 /\
  exists pos, x pos = 0 /\ trailPoints (state (App.canvas w')) = tp ++ [pos].
Proof.
  intros Hctl HL Htp Hlen Hzero w'.
  destruct (linear_canvas_frame 0 w Hctl) as (Hctl' & HL' & pos & Hx & Htp').
  fold w' in Hctl', HL', Htp'.
  rewrite HL in HL', Hx, Htp'. rewrite Htp in Htp'.
  rewrite capped_short in Htp' by exact Hlen.
  assert (Hpos : x pos = 0) by lra.
  split; [exact Hctl'|]. split; [lra|].
  exists pos. split; [exact Hpos|].
  rewrite Htp'. unfold evictBehind.
  destruct (tp ++ [pos]) as [|p0 l] eqn:E; [reflexivity|].
  destruct (Rlt_dec (x p0) (0 + 0 * 0.8 - 1200)) as [Hlt | _]; [|reflexivity].
  assert (Hp0 : x p0 = 0).
  { assert (Hin : In p0 (tp ++ [pos])) by (rewrite E; now left).
    apply in_app_or in Hin. destruct Hin as [Hin | [<- | []]]; auto. }
  lra.
Qed.

Lemma selected_linear :
  let w := App.step App.initialWorld (App.ScenarioChange LINEAR) in
  linearRunning 0 (App.app w) /\
  linearOffset (state (App.canvas w)) = 0 /\
  trailPoints (state (App.canvas w)) = [].
Proof. unfold linearRunning. cbn. repeat split; lra. Qed.

Lemma speed_raised (w : App.World) (L : R) (n : nat) :
  chasing L n 0 w ->
  chasing L n 0.99 (App.step w (App.SpeedChange 0.99)).
Proof.
  intros ((Hr & Ht & Hsc & Hb) & HL & Htp). cbn [App.step].
  destruct (commit_keeps_canvas w (App.onSpeedChange 0.99 (App.app w)))
    as [Hc Ha]; [reflexivity | reflexivity |].
  unfold chasing, linearRunning. rewrite Hc, Ha. cbn.
  repeat split; auto.
Qed.

Lemma overtaking_prefix :
  chasing 0 0 0.99
    (App.run App.initialWorld
       [App.ScenarioChange LINEAR; App.CanvasFrame; App.CanvasFrame;
        App.SpeedChange 0.99]).
Proof.
  change (chasing 0 0 0.99
    (App.step (App.step (App.step
       (App.step App.initialWorld (App.ScenarioChange LINEAR))
       App.CanvasFrame) App.CanvasFrame) (App.SpeedChange 0.99))).
  apply speed_raised.
  destruct selected_linear as (Hctl0 & HL0 & Htp0).
  destruct (resting_frame_appends _ [] Hctl0 HL0 Htp0 trailMax_pos)
    as (Hctl1 & HL1 & a & Hxa & Htp1); [intros p0 []|].
  destruct (resting_frame_appends _ [a] Hctl1 HL1 Htp1)
    as (Hctl2 & HL2 & b & Hxb & Htp2).
  { unfold trailMax. cbn [length]. lia. }
  { intros p0 [<- | []]. exact Hxa. }
  split; [exact Hctl2|]. split; [exact HL2|].
  exists a, b, []. repeat split; auto.
Qed.

(** The frame in which the platform passes 1200: the oldest point goes,
    the one behind it stays. *)
Lemma overtaking_frame (w : App.World) :
  chasing (1515 * (0.99 * 0.8)) 1515 0.99 w ->
  let w' := App.step w App.CanvasFrame in
  let st := state (App.canvas w') in
  linearRunning 0.99 (App.app w') /\
  linearOffset st = 1200.672 /\
  exists p0, In p0 (trailPoints st) /\ x p0 < linearOffset st - 1200.
Proof.
  intros (Hctl & HL & a & b & rest & Htp & Ha & Hb & Hn) w' st.
  destruct (linear_canvas_frame 0.99 w Hctl) as (Hctl' & HL' & pos & Hx & Htp').
  fold w' in Hctl', HL', Htp'. fold st in HL', Htp'.
  rewrite HL in HL', Htp'. rewrite Htp in Htp'.
  rewrite capped_short in Htp' by (cbn [length]; unfold trailMax; lia).
  cbn [app evictBehind] in Htp'.
  destruct (Rlt_dec (x a) (1515 * (0.99 * 0.8) + 0.99 * 0.8 - 1200))
    as [_ | Hge]; [|lra].
  cbn [shift tl] in Htp'.
  split; [exact Hctl'|]. split; [lra|].
  exists b. rewrite Htp', HL'. split; [now left | lra].
Qed.

Lemma INR_1515 : INR 1515 = 1515.
Proof. rewrite INR_IZR_INZ. reflexivity. Qed.

(** At the end of that run the platform is at 1200.672; the oldest
    point, at x = 0, was evicted in the last frame, and the point
    behind it, also at x = 0, is still in the buffer. *)
Lemma stale_point_survives_linear_eviction :
  let w := App.run App.initialWorld overtakingRun in
  let st := state (App.canvas w) in
  (App.scenario (App.app w) = LINEAR /\
   App.isRunning (App.app w) = true /\
   App.showTrail (App.app w) = true) /\
  linearOffset st = 1200.672 /\
  exists p0, In p0 (trailPoints st) /\ x p0 < linearOffset st - 1200.
Proof.
  cbv zeta. unfold overtakingRun. rewrite !run_app.
  pose proof (chasing_run 1515 0 0 _ overtaking_prefix) as H.
  rewrite INR_1515 in H.
  specialize (H ltac:(unfold trailMax; lia) ltac:(lra)).
  replace (0 + 1515 * (0.99 * 0.8)) with (1515 * (0.99 * 0.8)) in H by lra.
  destruct (overtaking_frame _ H) as ((Hr & Ht & Hsc & _) & HL & Hex).
  split; [auto|]. split; [exact HL | exact Hex].
Qed.

(* ================================================================== *)
(** ** The displayed Lorentz factor *)
(* ================================================================== *)

Lemma photonPhaseStep_zero : photonPhaseStep 0 = SPEED_OF_LIGHT / CLOCK_TRAVEL_DIST.
Proof.
  unfold photonPhaseStep, vVertical. fold (contraction 0).
  rewrite contraction_zero. lra.
Qed.

(** The displayed factor is positive and undoes the shortening of the
    phase step. *)
Lemma gamma_slowdown_lemma (beta : R) :
  validRatio beta ->
  0 < Controls.gamma beta /\
  photonPhaseStep beta * Controls.gamma beta = 0.8 / 6.
Proof.
  intros Hb. pose proof (sqrt_one_minus_square beta Hb) as [Hlo Hhi].
  unfold Controls.gamma, photonPhaseStep, vVertical,
    SPEED_OF_LIGHT, CLOCK_TRAVEL_DIST.
  set (r := sqrt (1 - beta * beta)) in *.
  assert (Hinv : 1 / r * r = 1) by (field; lra).
  split; [apply Rdiv_lt_0_compat; lra | nra].
Qed.

(** X1.  For a ratio in 0 .. 0.99 the factor [gamma] that the control
    panel displays is at least 1 and below 7.1, is the reciprocal of
    the contraction the canvas applies, and is exactly the factor by
    which the canvas shortens the photon's phase step: the step at
    that ratio times [gamma] is the step at rest. *)
Theorem gamma_is_the_clock_slowdown (beta : R) :
  validRatio beta ->
  1 <= Controls.gamma beta < 7.1 /\
  Controls.gamma beta * contraction beta = 1 /\
  photonPhaseStep beta * Controls.gamma beta = photonPhaseStep 0.
Proof.
  intros Hb. pose proof (sqrt_one_minus_square beta Hb) as [Hlo Hhi].
  assert (Hmin : 0.141 < sqrt (1 - beta * beta)).
  { destruct Hb as [H0 H1].
    replace 0.141 with (sqrt (0.141 * 0.141)) by (apply sqrt_square; lra).
    apply sqrt_lt_1_alt. nra. }
  rewrite photonPhaseStep_zero.
  unfold Controls.gamma, contraction, photonPhaseStep, vVertical,
    SPEED_OF_LIGHT, CLOCK_TRAVEL_DIST.
  set (s := sqrt (1 - beta * beta)) in *.
  assert (Hinv : 1 / s * s = 1) by (field; lra).
  assert (Hpos : 0 < 1 / s) by (apply Rdiv_lt_0_compat; lra).
  repeat split; nra.
Qed.

Lemma gamma_is_the_clock_slowdown_witness :
  1 <= Controls.gamma 0.6 < 7.1 /\
  Controls.gamma 0.6 * contraction 0.6 = 1 /\
  photonPhaseStep 0.6 * Controls.gamma 0.6 = photonPhaseStep 0.
Proof.
  apply (gamma_is_the_clock_slowdown 0.6). unfold validRatio. lra.
Defined.

(* ================================================================== *)
(** ** The photon in space *)
(* ================================================================== *)

Lemma norm2_rotateX (a : R) (v : Vector3) : norm2 (rotateX a v) = norm2 v.
Proof.
  unfold norm2, rotateX; cbn. pose proof (sin2_cos2 a) as H.
  unfold Rsqr in H. nra.
Qed.

Lemma norm2_rotateY (a : R) (v : Vector3) : norm2 (rotateY a v) = norm2 v.
Proof.
  unfold norm2, rotateY; cbn. pose proof (sin2_cos2 a) as H.
  unfold Rsqr in H. nra.
Qed.

Lemma norm2_rotateZ (a : R) (v : Vector3) : norm2 (rotateZ a v) = norm2 v.
Proof.
  unfold norm2, rotateZ; cbn. pose proof (sin2_cos2 a) as H.
  unfold Rsqr in H. nra.
Qed.

Lemma norm2_applyEuler (v : Vector3) (e : Euler) :
  norm2 (applyEuler v e) = norm2 v.
Proof.
  unfold applyEuler. now rewrite norm2_rotateX, norm2_rotateY, norm2_rotateZ.
Qed.

Lemma dist2_add_left (c v : Vector3) : dist2 (add c v) c = norm2 v.
Proof. unfold dist2, add, norm2; cbn. ring. Qed.

Lemma animate_photon_position (p : Props) (three : ThreeRef)
    (sh : SharedSimState.t) :
  let m := animate p three sh in
  photon_position (objects (fst m)) =
    add (shipGroup_position (objects (fst m)))
        (applyEuler
           (applyEuler (vec3 0 (- 3 + photonPhase (state (fst m)) * 6) 0)
                       (clockApparatus_rotation (objects (fst m))))
           (shipMesh_rotation (objects (fst m)))).
Proof.
  cbv zeta. unfold animate. cbn [fst objects state photon_position
    shipGroup_position clockApparatus_rotation shipMesh_rotation photonPhase].
  unfold photonWorldPosition, getWorldPosition, getWorldQuaternion,
    applyQuaternion. cbv zeta. do 4 f_equal. lra.
Qed.

(** X2.  After every frame, in every scenario, the photon of the main
    view is at distance [|-3 + 6 * phase|] from the centre of the
    clock, which is the position of the platform; with the phase in
    [0, 1] and a ratio in 0 .. 0.99 that is at most 3, half the height
    of the clock: the photon stays between the mirrors wherever the
    platform is and however it is turned. *)
Theorem photon_stays_between_mirrors
    (p : Props) (three : ThreeRef) (sh : SharedSimState.t) :
  validRatio (orbitSpeedMultiplier p) ->
  phaseInRange (state three) ->
  let m := animate p three sh in
  let o := objects (fst m) in
  let localY := - 3 + photonPhase (state (fst m)) * 6 in
  dist2 (photon_position o) (shipGroup_position o) = localY * localY /\
  dist2 (photon_position o) (shipGroup_position o) <= 3 * 3.
Proof.
  intros Hb Hin m o localY.
  assert (Hd : dist2 (photon_position o) (shipGroup_position o) = localY * localY).
  { subst o localY m. rewrite (animate_photon_position p three sh).
    rewrite dist2_add_left, !norm2_applyEuler.
    unfold norm2; cbn [x y z]. ring. }
  split; [exact Hd|]. rewrite Hd.
  pose proof (animate_phaseInRange p three sh Hb Hin) as [Hph _].
  fold m in Hph. subst localY. nra.
Qed.

Lemma photon_stays_between_mirrors_witness :
  let p := mkProps true 0.99 true GALAXY in
  let m := animate p mount (SharedSimState.mk 0.5 1) in
  let o := objects (fst m) in
  let localY := - 3 + photonPhase (state (fst m)) * 6 in
  dist2 (photon_position o) (shipGroup_position o) = localY * localY /\
  dist2 (photon_position o) (shipGroup_position o) <= 3 * 3.
Proof.
  apply (photon_stays_between_mirrors (mkProps true 0.99 true GALAXY) mount
           (SharedSimState.mk 0.5 1)).
  - unfold validRatio; cbn; lra.
  - apply initialState_inRange.
Defined.

Lemma Rabs_le_bounds (a b : R) : Rabs a <= b -> - b <= a <= b.
Proof. unfold Rabs. destruct (Rcase_abs a); lra. Qed.

Lemma photon_position_linear (p : Props) (three : ThreeRef)
    (sh : SharedSimState.t) :
  scenario p = LINEAR ->
  let m := animate p three sh in
  let localY := - 3 + photonPhase (state (fst m)) * 6 in
  photon_position (objects (fst m)) =
    vec3 (linearOffset (state (fst m))) (localY * cos 0.3) (localY * sin 0.3).
Proof.
  intros Hsc. cbv zeta. unfold animate, position. rewrite Hsc. cbn.
  unfold photonWorldPosition, positionLinear, getWorldPosition,
    getWorldQuaternion, applyQuaternion, applyEuler, rotateX, rotateY,
    rotateZ, add. cbn.
  rewrite sin_0, cos_0. replace 3.0 with 3 by lra. f_equal; ring.
Qed.

(** X3.  In the LINEAR scenario the photon of the main view never
    moves faster than [SPEED_OF_LIGHT]: between two consecutive frames,
    the second one running at a ratio in 0 .. 0.99, its world position
    changes by at most [SPEED_OF_LIGHT], and by exactly
    [SPEED_OF_LIGHT] when the second frame reaches no mirror, whatever
    the ratio. *)
Theorem photon_moves_at_light_speed
    (p1 p2 : Props) (three : ThreeRef) (sh : SharedSimState.t) :
  scenario p1 = LINEAR -> scenario p2 = LINEAR ->
  isRunning p2 = true ->
  validRatio (orbitSpeedMultiplier p1) ->
  validRatio (orbitSpeedMultiplier p2) ->
  phaseInRange (state three) ->
  let m1 := animate p1 three sh in
  let m2 := frame p2 m1 in
  let st := state (fst m1) in
  let target := photonPhase st
                + photonDir st * photonPhaseStep (orbitSpeedMultiplier p2) in
  let d2 := dist2 (photon_position (objects (fst m2)))
                  (photon_position (objects (fst m1))) in
  d2 <= SPEED_OF_LIGHT * SPEED_OF_LIGHT /\
  (0 < target < 1 -> d2 = SPEED_OF_LIGHT * SPEED_OF_LIGHT).
Proof.
  intros Hs1 Hs2 Hr Hb1 Hb2 Hin m1 m2 st target d2.
  assert (Hin1 : phaseInRange st) by (apply animate_phaseInRange; assumption).
  pose proof (animate_bounceSpec p2 (fst m1) (snd m1) Hr Hb2 Hin1) as Hspec.
  pose proof (phase_moves_at_most_step p2 st _ Hb2 Hin1 Hspec) as Hstep.
  pose proof (speeds_compose _ Hb2) as Hc.
  pose proof (photonPhaseStep_range _ Hb2) as Hrange.
  assert (HL : linearOffset (state (fst m2))
               = linearOffset st + vShip (orbitSpeedMultiplier p2)).
  { subst m2. unfold frame. rewrite animate_state. cbv zeta. cbn [linearOffset].
    rewrite (advance_running p2 _ Hr). cbn. now rewrite Hs2. }
  assert (Hd : d2 = vShip (orbitSpeedMultiplier p2) * vShip (orbitSpeedMultiplier p2)
                    + 36 * ((photonPhase (state (fst m2)) - photonPhase st)
                            * (photonPhase (state (fst m2)) - photonPhase st))).
  { pose proof (photon_position_linear p2 (fst m1) (snd m1) Hs2) as P2.
    pose proof (photon_position_linear p1 three sh Hs1) as P1.
    cbv zeta in P1, P2.
    change (animate p2 (fst m1) (snd m1)) with m2 in P2.
    change (animate p1 three sh) with m1 in P1.
    subst d2. rewrite P2, P1, HL. fold st.
    unfold dist2; cbn [x y z].
    pose proof (sin2_cos2 0.3) as Ht. unfold Rsqr in Ht.
    set (v := vShip (orbitSpeedMultiplier p2)).
    set (d := photonPhase (state (fst m2)) - photonPhase st).
    transitivity (v * v + 36 * (d * d) * (sin 0.3 * sin 0.3 + cos 0.3 * cos 0.3)).
    - subst d. ring.
    - rewrite Ht. ring. }
  assert (Hv : vVertical (orbitSpeedMultiplier p2)
               = 6 * photonPhaseStep (orbitSpeedMultiplier p2))
    by (unfold photonPhaseStep, CLOCK_TRAVEL_DIST; lra).
  apply Rabs_le_bounds in Hstep. fold (frame p2 m1) in Hstep. fold m2 in Hstep.
  split.
  - rewrite Hd, <- Hc, Hv. nra.
  - intros Ht. destruct Hspec as (_ & _ & _ & Hmid).
    destruct (Hmid Ht) as [Hph Hdir].
    fold (frame p2 m1) in Hph. fold m2 in Hph. fold st in Hin1.
    rewrite Hd, <- Hc, Hv, Hph. fold st.
    destruct Hin1 as [_ [Hdir1 | Hdir1]]; rewrite Hdir1; ring.
Qed.

Lemma photon_moves_at_light_speed_witness :
  let p1 := mkProps true 0.6 true LINEAR in
  let p2 := mkProps true 0.9 true LINEAR in
  let m1 := animate p1 mount (SharedSimState.mk 0.5 1) in
  let m2 := frame p2 m1 in
  let st := state (fst m1) in
  let target := photonPhase st
                + photonDir st * photonPhaseStep (orbitSpeedMultiplier p2) in
  let d2 := dist2 (photon_position (objects (fst m2)))
                  (photon_position (objects (fst m1))) in
  d2 <= SPEED_OF_LIGHT * SPEED_OF_LIGHT /\
  (0 < target < 1 -> d2 = SPEED_OF_LIGHT * SPEED_OF_LIGHT).
Proof.
  apply (photon_moves_at_light_speed (mkProps true 0.6 true LINEAR)
           (mkProps true 0.9 true LINEAR) mount (SharedSimState.mk 0.5 1));
    try reflexivity; try (unfold validRatio; cbn; lra).
  apply initialState_inRange.
Defined.

(* ================================================================== *)
(** ** The orbits *)
(* ================================================================== *)

Lemma tilt_nonzero : 60 * (PI / 180) <> 0.
Proof. pose proof PI_RGT_0. lra. Qed.

Lemma circle_point (a r : R) :
  cos a * r * (cos a * r) + - sin a * r * (- sin a * r) = r * r.
Proof.
  pose proof (sin2_cos2 a) as H. unfold Rsqr in H.
  transitivity (r * r * (sin a * sin a + cos a * cos a)); [ring|].
  rewrite H. ring.
Qed.

(** X4.  After every frame of an orbit scenario the bodies are on
    their circles.  EARTH_ORBIT: the earth is at the origin and the
    platform 50 away from it.  SOLAR_SYSTEM: the sun is at the origin,
    the earth 120 away from it and the platform 50 away from the
    earth.  GALAXY: the sun is 300 away from the origin, the earth 60
    away from the sun and the platform 50 away from the earth, the
    tilt of the two inner orbits notwithstanding. *)
Theorem orbit_radii_are_kept
    (p : Props) (three : ThreeRef) (sh : SharedSimState.t) :
  let o := objects (fst (animate p three sh)) in
  match scenario p with
  | LINEAR => True
  | EARTH_ORBIT =>
      earthGroup_position o = vec3 0 0 0 /\
      dist2 (shipGroup_position o) (earthGroup_position o) = 50 * 50
  | SOLAR_SYSTEM =>
      sunGroup_position o = vec3 0 0 0 /\
      dist2 (earthGroup_position o) (sunGroup_position o) = 120 * 120 /\
      dist2 (shipGroup_position o) (earthGroup_position o) = 50 * 50
  | GALAXY =>
      dist2 (sunGroup_position o) (vec3 0 0 0) = 300 * 300 /\
      dist2 (earthGroup_position o) (sunGroup_position o) = 60 * 60 /\
      dist2 (shipGroup_position o) (earthGroup_position o) = 50 * 50
  end.
Proof.
  cbv zeta. unfold animate, position.
  destruct (scenario p) eqn:E; [exact I | | |];
    cbn [scenario_eqb]; unfold positionOrbit; rewrite E; cbn [scenario_eqb];
    cbv zeta.
  - destruct (Req_dec_T 0 0) as [_ | Hne]; [|contradiction].
    cbn. split; [reflexivity|]. unfold dist2, add; cbn.
    set (a := shipTime (advance p (state three)) * 2.5).
    pose proof (circle_point a 50) as H. lra.
  - destruct (Req_dec_T 0 0) as [_ | Hne]; [|contradiction].
    cbn. split; [reflexivity|]. unfold dist2, add; cbn.
    set (a := shipTime (advance p (state three)) * 2.5).
    set (b := celestialTime (advance p (state three)) * 0.3).
    pose proof (circle_point a 50) as Ha. pose proof (circle_point b 120) as Hb.
    split; lra.
  - destruct (Req_dec_T (60 * (PI / 180)) 0) as [H0 | _];
      [exfalso; exact (tilt_nonzero H0)|].
    cbn. unfold dist2, add; cbn.
    set (t := 60 * (PI / 180)).
    set (a := shipTime (advance p (state three)) * 2.5).
    set (b := celestialTime (advance p (state three)) * 2.0).
    set (c := celestialTime (advance p (state three)) * 0.1 + PI).
    pose proof (sin2_cos2 t) as Ht. unfold Rsqr in Ht.
    pose proof (sin2_cos2 a) as Ha. unfold Rsqr in Ha.
    pose proof (sin2_cos2 b) as Hb. unfold Rsqr in Hb.
    pose proof (circle_point c 300) as Hc.
    split; [lra|]. split.
    + transitivity (60 * 60 * (cos b * cos b
                      + sin b * sin b * (sin t * sin t + cos t * cos t)));
        [ring|]. rewrite Ht. lra.
    + transitivity (50 * 50 * (cos a * cos a
                      + sin a * sin a * (sin t * sin t + cos t * cos t)));
        [ring|]. rewrite Ht. lra.
Qed.

(** X5.  The slider and the trail switch do not reach the celestial
    bodies: two frames drawn from the same canvas in the same scenario,
    both running or both paused, leave [celestialTime], the turn of
    the galaxy, the spin of the earth and the positions of the sun and
    of the earth the same, whatever their velocity ratios and trail
    switches are. *)
Theorem celestial_bodies_ignore_the_slider
    (p q : Props) (three : ThreeRef) (sh sh' : SharedSimState.t) :
  isRunning p = isRunning q ->
  scenario p = scenario q ->
  let mp := animate p three sh in
  let mq := animate q three sh' in
  celestialTime (state (fst mp)) = celestialTime (state (fst mq)) /\
  galaxy_rotation_y (objects (fst mp)) = galaxy_rotation_y (objects (fst mq)) /\
  earthMesh_rotation_y (objects (fst mp))
    = earthMesh_rotation_y (objects (fst mq)) /\
  sunGroup_position (objects (fst mp)) = sunGroup_position (objects (fst mq)) /\
  earthGroup_position (objects (fst mp))
    = earthGroup_position (objects (fst mq)).
Proof.
  intros Hr Hsc. cbv zeta.
  assert (Hc : celestialTime (advance p (state three))
               = celestialTime (advance q (state three))).
  { unfold advance. rewrite <- Hr. destruct (isRunning p); [|reflexivity].
    cbv zeta. do 2 destruct (bounce _ _). reflexivity. }
  unfold animate, position. rewrite <- Hsc.
  destruct (scenario p) eqn:E; cbn [scenario_eqb];
    [cbn; rewrite Hc; repeat split | | |];
    unfold positionOrbit; rewrite <- Hsc, E; cbn [scenario_eqb]; cbv zeta;
    destruct (Req_dec_T _ 0); cbn; rewrite Hc; repeat split.
Qed.

Lemma celestial_bodies_ignore_the_slider_witness :
  let p := mkProps true 0 true GALAXY in
  let q := mkProps true 0.99 false GALAXY in
  let mp := animate p mount (SharedSimState.mk 0.5 1) in
  let mq := animate q mount (SharedSimState.mk 0.5 1) in
  celestialTime (state (fst mp)) = celestialTime (state (fst mq)) /\
  galaxy_rotation_y (objects (fst mp)) = galaxy_rotation_y (objects (fst mq)) /\
  earthMesh_rotation_y (objects (fst mp))
    = earthMesh_rotation_y (objects (fst mq)) /\
  sunGroup_position (objects (fst mp)) = sunGroup_position (objects (fst mq)) /\
  earthGroup_position (objects (fst mp))
    = earthGroup_position (objects (fst mq)).
Proof.
  apply (celestial_bodies_ignore_the_slider (mkProps true 0 true GALAXY)
           (mkProps true 0.99 false GALAXY) mount
           (SharedSimState.mk 0.5 1) (SharedSimState.mk 0.5 1));
    reflexivity.
Defined.

(* ================================================================== *)
(** ** The period of the clock *)
(* ================================================================== *)

Lemma frames_S (p : Props) (k : nat) (m : ThreeRef * SharedSimState.t) :
  frames p (S k) m = frame p (frames p k m).
Proof. reflexivity. Qed.

Lemma frames_add (p : Props) (a b : nat) (m : ThreeRef * SharedSimState.t) :
  frames p (a + b) m = frames p a (frames p b m).
Proof.
  induction a as [|a IH]; [reflexivity|].
  cbn [Nat.add]. now rewrite !frames_S, IH.
Qed.

(** A frame that reaches no mirror. *)
Lemma frame_free (p : Props) (m : ThreeRef * SharedSimState.t) :
  isRunning p = true -> validRatio (orbitSpeedMultiplier p) ->
  phaseInRange (state (fst m)) ->
  let st := state (fst m) in
  let s := photonPhaseStep (orbitSpeedMultiplier p) in
  0 < photonPhase st + photonDir st * s < 1 ->
  photonPhase (state (fst (frame p m))) = photonPhase st + photonDir st * s /\
  photonDir (state (fst (frame p m))) = photonDir st.
Proof.
  intros Hr Hb Hin st s Ht.
  destruct (animate_bounceSpec p (fst m) (snd m) Hr Hb Hin) as (_ & _ & _ & Hmid).
  exact (Hmid Ht).
Qed.

Lemma rising (p : Props) (k : nat) :
  isRunning p = true -> validRatio (orbitSpeedMultiplier p) ->
  forall (m : ThreeRef * SharedSimState.t),
    let s := photonPhaseStep (orbitSpeedMultiplier p) in
    0 <= photonPhase (state (fst m)) ->
    photonDir (state (fst m)) = 1 ->
    photonPhase (state (fst m)) + INR k * s < 1 ->
    photonPhase (state (fst (frames p k m)))
      = photonPhase (state (fst m)) + INR k * s /\
    photonDir (state (fst (frames p k m))) = 1.
Proof.
  intros Hr Hb m s H0 Hd Hk.
  pose proof (photonPhaseStep_range _ Hb) as Hs. fold s in Hs.
  induction k as [|k IH].
  - cbn. split; [lra | exact Hd].
  - rewrite S_INR in Hk. pose proof (pos_INR k) as Hpos.
    destruct IH as [Hph Hdir]; [nra|].
    rewrite frames_S, S_INR.
    destruct (frame_free p (frames p k m) Hr Hb) as [H1 H2].
    + split; [rewrite Hph; nra | now left].
    + fold s. rewrite Hph, Hdir. nra.
    + fold s in H1. rewrite H1, H2, Hph, Hdir. split; [ring | reflexivity].
Qed.

Lemma falling (p : Props) (k : nat) :
  isRunning p = true -> validRatio (orbitSpeedMultiplier p) ->
  forall (m : ThreeRef * SharedSimState.t),
    let s := photonPhaseStep (orbitSpeedMultiplier p) in
    photonPhase (state (fst m)) <= 1 ->
    photonDir (state (fst m)) = -1 ->
    0 < photonPhase (state (fst m)) - INR k * s ->
    photonPhase (state (fst (frames p k m)))
      = photonPhase (state (fst m)) - INR k * s /\
    photonDir (state (fst (frames p k m))) = -1.
Proof.
  intros Hr Hb m s H1 Hd Hk.
  pose proof (photonPhaseStep_range _ Hb) as Hs. fold s in Hs.
  induction k as [|k IH].
  - cbn. split; [lra | exact Hd].
  - rewrite S_INR in Hk. pose proof (pos_INR k) as Hpos.
    destruct IH as [Hph Hdir]; [nra|].
    rewrite frames_S, S_INR.
    destruct (frame_free p (frames p k m) Hr Hb) as [H2 H3].
    + split; [rewrite Hph; nra | now right].
    + fold s. rewrite Hph, Hdir. nra.
    + fold s in H2. rewrite H2, H3, Hph, Hdir. split; [ring | reflexivity].
Qed.

(** X6.  The light clock is periodic.  Let [s] be the phase step at a
    ratio in 0 .. 0.99 and let [n + 1] be the number of steps that
    reach 1 ([n * s < 1 <= (n + 1) * s]).  From the bottom mirror,
    heading up, running frames raise the phase by [s] each for [n]
    frames, frame [n + 1] puts the photon on the top mirror heading
    down, the next [n] frames lower the phase by [s] each, and frame
    [2 * (n + 1)] puts it back on the bottom mirror heading up.  The
    number of frames per crossing is [7.5 * gamma] rounded up, [gamma]
    being the factor the control panel displays. *)
Theorem light_clock_is_periodic
    (p : Props) (n : nat) (m : ThreeRef * SharedSimState.t) :
  isRunning p = true ->
  validRatio (orbitSpeedMultiplier p) ->
  let s := photonPhaseStep (orbitSpeedMultiplier p) in
  INR n * s < 1 <= INR (S n) * s ->
  photonPhase (state (fst m)) = 0 ->
  photonDir (state (fst m)) = 1 ->
  let phase k := photonPhase (state (fst (frames p k m))) in
  let dir k := photonDir (state (fst (frames p k m))) in
  (forall k, (k <= n)%nat -> phase k = INR k * s /\ dir k = 1) /\
  (phase (S n) = 1 /\ dir (S n) = -1) /\
  (forall k, (k <= n)%nat ->
     phase (k + S n)%nat = 1 - INR k * s /\ dir (k + S n)%nat = -1) /\
  (phase (2 * S n)%nat = 0 /\ dir (2 * S n)%nat = 1) /\
  INR n < 7.5 * Controls.gamma (orbitSpeedMultiplier p) <= INR (S n).
Proof.
  intros Hr Hb s [Hlt Hge] Hph0 Hd0 phase dir.
  pose proof (photonPhaseStep_range _ Hb) as Hs. fold s in Hs.
  assert (Hup : forall k, (k <= n)%nat -> phase k = INR k * s /\ dir k = 1).
  { intros k Hk. apply le_INR in Hk.
    destruct (rising p k Hr Hb m) as [H1 H2]; try (rewrite Hph0; fold s; nra);
      [exact Hd0|].
    subst phase dir. cbv beta. rewrite H1, Hph0. fold s. split; [ring | exact H2]. }
  assert (Htop : phase (S n) = 1 /\ dir (S n) = -1).
  { destruct (Hup n (le_n n)) as [Hp Hd].
    subst phase dir. cbv beta in *. rewrite frames_S.
    assert (Hin : phaseInRange (state (fst (frames p n m)))).
    { split; [rewrite Hp; pose proof (pos_INR n); nra | now left]. }
    destruct (animate_bounceSpec p (fst (frames p n m)) (snd (frames p n m))
                Hr Hb Hin) as (_ & Ht & _).
    fold (frame p (frames p n m)) in Ht. fold s in Ht.
    rewrite Hp, Hd in Ht. rewrite S_INR in Hge.
    destruct Ht as [-> ->]; [nra | split; [reflexivity | lra]]. }
  assert (Hdown : forall k, (k <= n)%nat ->
            phase (k + S n)%nat = 1 - INR k * s /\ dir (k + S n)%nat = -1).
  { intros k Hk. apply le_INR in Hk. destruct Htop as [Hp Hd].
    subst phase dir. cbv beta in *. rewrite frames_add.
    destruct (falling p k Hr Hb (frames p (S n) m)) as [H1 H2];
      try (rewrite Hp; fold s; nra); [exact Hd|].
    rewrite H1, Hp. fold s. split; [ring | exact H2]. }
  split; [exact Hup|]. split; [exact Htop|]. split; [exact Hdown|].
  split.
  - destruct (Hdown n (le_n n)) as [Hp Hd].
    replace (2 * S n)%nat with (S (n + S n)) by lia.
    subst phase dir. cbv beta in *. rewrite frames_S.
    assert (Hin : phaseInRange (state (fst (frames p (n + S n) m)))).
    { split; [rewrite Hp; pose proof (pos_INR n); nra | now right]. }
    destruct (animate_bounceSpec p (fst (frames p (n + S n) m))
                (snd (frames p (n + S n) m)) Hr Hb Hin) as (_ & _ & Hbot & _).
    fold (frame p (frames p (n + S n) m)) in Hbot. fold s in Hbot.
    rewrite Hp, Hd in Hbot. rewrite S_INR in Hge.
    destruct Hbot as [-> ->]; [nra | split; [reflexivity | lra]].
  - destruct (gamma_slowdown_lemma (orbitSpeedMultiplier p) Hb) as (Hg & Hgs).
    fold s in Hgs. rewrite S_INR in *. pose proof (pos_INR n). split; nra.
Qed.

(** At rest a crossing takes 8 frames. *)
Lemma light_clock_is_periodic_witness :
  let p := mkProps true 0 true EARTH_ORBIT in
  let m := (mkThree initialObjects (mkState 0 0 0 0 1 []),
            SharedSimState.mk 0 1) in
  let n := 7%nat in
  let s := photonPhaseStep (orbitSpeedMultiplier p) in
  let phase k := photonPhase (state (fst (frames p k m))) in
  let dir k := photonDir (state (fst (frames p k m))) in
  (forall k, (k <= n)%nat -> phase k = INR k * s /\ dir k = 1) /\
  (phase (S n) = 1 /\ dir (S n) = -1) /\
  (forall k, (k <= n)%nat ->
     phase (k + S n)%nat = 1 - INR k * s /\ dir (k + S n)%nat = -1) /\
  (phase (2 * S n)%nat = 0 /\ dir (2 * S n)%nat = 1) /\
  INR n < 7.5 * Controls.gamma (orbitSpeedMultiplier p) <= INR (S n).
Proof.
  apply (light_clock_is_periodic (mkProps true 0 true EARTH_ORBIT) 7
           (mkThree initialObjects (mkState 0 0 0 0 1 []),
            SharedSimState.mk 0 1)).
  - reflexivity.
  - unfold validRatio; cbn; lra.
  - cbn [orbitSpeedMultiplier]. rewrite photonPhaseStep_zero.
    unfold SPEED_OF_LIGHT, CLOCK_TRAVEL_DIST. cbn [INR]. lra.
  - reflexivity.
  - reflexivity.
Defined.

(* ================================================================== *)
(** ** The buffers of the co-moving view *)
(* ================================================================== *)

Lemma saturate_binary32Rounding : binary32Rounding saturate.
Proof.
  unfold binary32Rounding, saturate. repeat split.
  - intros a b Hab.
    destruct (Rle_dec a (-16777216)); destruct (Rle_dec b (-16777216));
      destruct (Rle_dec 16777216 a); destruct (Rle_dec 16777216 b); lra.
  - intros a.
    destruct (Rle_dec a (-16777216)) as [Ha | Ha].
    + destruct (Rle_dec (-16777216) (-16777216)); lra.
    + destruct (Rle_dec 16777216 a) as [Hb | Hb].
      * destruct (Rle_dec 16777216 (-16777216)); [lra|].
        destruct (Rle_dec 16777216 16777216); lra.
      * destruct (Rle_dec a (-16777216)); [lra|].
        destruct (Rle_dec 16777216 a); lra.
  - intros n Hn.
    assert (H1 : IZR (-16777216) <= IZR n) by (apply IZR_le; lia).
    assert (H2 : IZR n <= IZR 16777216) by (apply IZR_le; lia).
    destruct (Rle_dec (IZR n) (-16777216)); [lra|].
    destruct (Rle_dec 16777216 (IZR n)); lra.
Qed.

Lemma saturate_small (v : R) : -16777216 < v < 16777216 -> saturate v = v.
Proof.
  intros H. unfold saturate.
  destruct (Rle_dec v (-16777216)); [lra|].
  destruct (Rle_dec 16777216 v); [lra | reflexivity].
Qed.

Lemma set_length (fround : R -> R) (arr : Float32Array.t) (i : nat) (v : R) :
  length (Float32Array.set fround arr i v) = length arr.
Proof.
  revert i. induction arr as [|a arr IH]; intros [|i]; cbn; auto.
Qed.

Lemma set_app_left (fround : R -> R) (pre suf : Float32Array.t)
    (i : nat) (v : R) :
  (i < length pre)%nat ->
  Float32Array.set fround (pre ++ suf) i v
  = Float32Array.set fround pre i v ++ suf.
Proof.
  revert i. induction pre as [|a pre IH]; intros i Hi; cbn in Hi; [lia|].
  destruct i as [|i]; cbn; [reflexivity|]. f_equal. apply IH. lia.
Qed.

Lemma set_last (fround : R -> R) (pre : Float32Array.t) (w v : R) :
  Float32Array.set fround (pre ++ [w]) (length pre) v = pre ++ [fround v].
Proof. induction pre as [|a pre IH]; cbn; [reflexivity | now rewrite IH]. Qed.

Lemma get_app_left (pre suf : Float32Array.t) (i : nat) :
  (i < length pre)%nat ->
  Float32Array.get (pre ++ suf) i = Float32Array.get pre i.
Proof. intros Hi. unfold Float32Array.get. now apply app_nth1. Qed.

(** A cell read from an array of binary32 numbers is stored back
    unchanged. *)
Lemma get_representable (fround : R -> R) (arr : Float32Array.t) (i : nat) :
  Forall (representable fround) arr -> (i < length arr)%nat ->
  fround (Float32Array.get arr i) = Float32Array.get arr i.
Proof.
  intros Hall Hi. unfold Float32Array.get.
  exact (proj1 (Forall_forall _ _) Hall _ (nth_In arr 0 Hi)).
Qed.

Lemma firstn_snoc (l : list R) (m : nat) :
  (m < length l)%nat -> firstn (S m) l = firstn m l ++ [nth m l 0].
Proof.
  revert m. induction l as [|a l IH]; intros m Hm; cbn in Hm; [lia|].
  destruct m as [|m]; [reflexivity|].
  cbn [firstn nth app]. f_equal. apply IH. lia.
Qed.

(** The loop over the indices [m + 2], ..., 3. *)
Lemma shift_loop_step (fround : R -> R) (m : nat) (arr : Float32Array.t) :
  fold_left (fun a i => Float32Array.set fround a i (Float32Array.get a (i - 3)))
            (rev (seq 3 (S m))) arr
  = fold_left (fun a i => Float32Array.set fround a i (Float32Array.get a (i - 3)))
              (rev (seq 3 m))
              (Float32Array.set fround arr (3 + m) (Float32Array.get arr m)).
Proof.
  rewrite seq_S, rev_app_distr. cbn [rev app fold_left].
  replace (3 + m - 3)%nat with m by lia. reflexivity.
Qed.

Lemma shift_loop_app (fround : R -> R) (m : nat) :
  forall pre suf : Float32Array.t,
    (m + 3 <= length pre)%nat ->
    fold_left (fun a i => Float32Array.set fround a i (Float32Array.get a (i - 3)))
              (rev (seq 3 m)) (pre ++ suf)
    = fold_left (fun a i => Float32Array.set fround a i (Float32Array.get a (i - 3)))
                (rev (seq 3 m)) pre ++ suf.
Proof.
  induction m as [|m IH]; intros pre suf Hlen; [reflexivity|].
  rewrite !shift_loop_step.
  rewrite set_app_left, get_app_left by lia.
  apply IH. rewrite set_length. lia.
Qed.

Lemma shift_loop_spec (fround : R -> R) (m : nat) :
  forall arr : Float32Array.t,
    Forall (representable fround) arr ->
    length arr = (m + 3)%nat ->
    fold_left (fun a i => Float32Array.set fround a i (Float32Array.get a (i - 3)))
              (rev (seq 3 m)) arr
    = firstn 3 arr ++ firstn m arr.
Proof.
  induction m as [|m IH]; intros arr Hall Hlen.
  - cbn [seq rev fold_left]. rewrite firstn_O, app_nil_r.
    symmetry. apply firstn_all2. lia.
  - destruct (exists_last (l := arr)) as (pre & w & ->).
    { intros ->. cbn in Hlen. lia. }
    rewrite length_app in Hlen. cbn [length] in Hlen.
    assert (Hpre : length pre = (m + 3)%nat) by lia.
    assert (Hallpre : Forall (representable fround) pre)
      by exact (proj1 (proj1 (Forall_app _ _ _) Hall)).
    rewrite shift_loop_step.
    replace (3 + m)%nat with (length pre) by lia.
    rewrite set_last, get_app_left by lia.
    rewrite (get_representable fround pre m Hallpre) by lia.
    rewrite shift_loop_app by lia. rewrite (IH pre Hallpre Hpre).
    rewrite !firstn_app.
    replace (3 - length pre)%nat with 0%nat by lia.
    replace (S m - length pre)%nat with 0%nat by lia.
    rewrite !firstn_O, !app_nil_r.
    rewrite (firstn_snoc pre m) by lia.
    unfold Float32Array.get. now rewrite <- !app_assoc.
Qed.

Lemma firstn_representable (fround : R -> R) (n : nat) (arr : list R) :
  Forall (representable fround) arr ->
  Forall (representable fround) (firstn n arr).
Proof.
  intros Hall. revert n.
  induction Hall as [|v arr Hv _ IH]; intros [|n]; cbn [firstn];
    constructor; auto.
Qed.

(** X9.  The trail buffer of the co-moving view starts as 900 cells
    holding 0, which are binary32 numbers.  One frame shifts a buffer
    of binary32 numbers back by one point and records the photon in
    front: on at least three cells the new contents are the three
    coordinates of the photon, each rounded to binary32 by its store,
    followed by the old contents without their last three cells.  The
    downward loop overwrites no cell before it was copied, the length
    is kept, and the buffer again holds binary32 numbers only. *)
Theorem relative_trail_shifts_by_one_point
    (fround : R -> R) (pos : Vector3) (arr : Float32Array.t) :
  binary32Rounding fround ->
  Forall (representable fround) arr ->
  (3 <= length arr)%nat ->
  (Forall (representable fround) RelativeBuffers.trailPos /\
   length RelativeBuffers.trailPos = 900%nat) /\
  RelativeBuffers.recordPhoton fround pos arr
    = [fround (x pos); fround (y pos); fround (z pos)]
      ++ firstn (length arr - 3) arr /\
  length (RelativeBuffers.recordPhoton fround pos arr) = length arr /\
  Forall (representable fround) (RelativeBuffers.recordPhoton fround pos arr).
Proof.
  intros (_ & Hidem & Hfix) Hall Hlen.
  assert (Hshift : RelativeBuffers.shiftBack fround arr
                   = firstn 3 arr ++ firstn (length arr - 3) arr).
  { unfold RelativeBuffers.shiftBack. apply shift_loop_spec; [exact Hall | lia]. }
  assert (Heq : RelativeBuffers.recordPhoton fround pos arr
                = [fround (x pos); fround (y pos); fround (z pos)]
                  ++ firstn (length arr - 3) arr).
  { unfold RelativeBuffers.recordPhoton. cbv zeta. rewrite Hshift.
    destruct arr as [|a [|b [|c rest]]]; cbn in Hlen; try lia. reflexivity. }
  split; [|split; [exact Heq | split]].
  - split; [|apply repeat_length].
    apply Forall_forall. intros v Hv.
    apply repeat_spec in Hv. subst v. exact (Hfix 0%Z ltac:(cbn; lia)).
  - rewrite Heq, length_app, firstn_length_le by lia. cbn [length]. lia.
  - rewrite Heq. apply Forall_app. split.
    + repeat constructor; unfold representable; apply Hidem.
    + apply firstn_representable. exact Hall.
Qed.

Lemma relative_trail_shifts_by_one_point_witness :
  let fround := saturate in
  let pos := vec3 1 2 3 in
  let arr := [10; 20; 30; 40; 50; 60; 70] in
  (Forall (representable fround) RelativeBuffers.trailPos /\
   length RelativeBuffers.trailPos = 900%nat) /\
  RelativeBuffers.recordPhoton fround pos arr
    = [fround (x pos); fround (y pos); fround (z pos)]
      ++ firstn (length arr - 3) arr /\
  length (RelativeBuffers.recordPhoton fround pos arr) = length arr /\
  Forall (representable fround) (RelativeBuffers.recordPhoton fround pos arr).
Proof.
  apply (relative_trail_shifts_by_one_point saturate (vec3 1 2 3)
           [10; 20; 30; 40; 50; 60; 70]).
  - exact saturate_binary32Rounding.
  - repeat constructor; unfold representable; apply saturate_small; lra.
  - cbn. lia.
Defined.






(* ================================================================== *)
(** ** The photon of the co-moving view *)
(* ================================================================== *)

Lemma relative_animate_tilt (p : RelativeView.Props) (sh : SharedSimState.t)
    (sc : RelativeView.Scene) :
  relativeClockTilt sc -> relativeClockTilt (RelativeView.animate p sh sc).
Proof. intros [H1 H2]. split; cbn; assumption. Qed.

Lemma mount_tilt : relativeClockTilt RelativeView.mount.
Proof. split; reflexivity. Qed.

Lemma commit_relative (w : App.World) (a : App.State) :
  App.relative (App.commit (App.app w) w a) = App.relative w \/
  App.relative (App.commit (App.app w) w a) = RelativeView.mount.
Proof.
  unfold App.commit.
  destruct (if negb (App.resetKey a =? App.resetKey (App.app w))%nat
            then _ else _) as [three shared].
  cbn. destruct (Bool.eqb _ _); [destruct (Req_dec_T _ _)|]; auto.
Qed.

Lemma step_tilt (w : App.World) (e : App.Event) :
  relativeClockTilt (App.relative w) ->
  relativeClockTilt (App.relative (App.step w e)).
Proof.
  intros Hw.
  assert (Hc : forall a, relativeClockTilt
                           (App.relative (App.commit (App.app w) w a))).
  { intros a. destruct (commit_relative w a) as [-> | ->];
      [exact Hw | exact mount_tilt]. }
  destruct e; cbn [App.step]; try apply Hc.
  - destruct (animate _ _ _). exact Hw.
  - cbn. now apply relative_animate_tilt.
Qed.

Lemma run_tilt (es : list App.Event) (w : App.World) :
  relativeClockTilt (App.relative w) ->
  relativeClockTilt (App.relative (App.run w es)).
Proof.
  revert w. induction es as [|e es IH]; intros w Hw; [exact Hw|].
  cbn. apply IH. now apply step_tilt.
Qed.

(** X11.  In the co-moving view the photon moves on one fixed straight
    line.  After every sequence of frames and control events, the next
    frame of the co-moving view places its photon at
    [(0, h * cos 0.2, h * sin 0.2)] with [h = -3 + 6 * phase] for the
    phase of the canvas state: the spin of the clock about its own
    axis, which goes on while paused and depends on the speed, does
    not move the photon sideways, and the photon is never more than 3
    away from the centre. *)
Theorem relative_photon_moves_on_a_line (es : list App.Event) :
  Forall App.validEvent es ->
  let w := App.run App.initialWorld es in
  let w' := App.step w App.RelativeFrame in
  let h := - 3 + photonPhase (state (App.canvas w)) * 6 in
  RelativeView.photon_position (App.relative w')
    = vec3 0 (h * cos 0.2) (h * sin 0.2) /\
  norm2 (RelativeView.photon_position (App.relative w')) <= 3 * 3 /\
  ey (RelativeView.clockGroup_rotation (App.relative w'))
    = ey (RelativeView.clockGroup_rotation (App.relative w))
      + (0.002 + App.orbitSpeed (App.app w) * 0.05).
Proof.
  intros Hes w w' h.
  pose proof (run_tilt es App.initialWorld mount_tilt) as [Hex Hez].
  pose proof (run_bufferInvariant es _ initialWorld_bufferInvariant)
    as [_ [Hsync _]].
  pose proof (run_phaseInvariant es _ Hes initialWorld_phaseInvariant)
    as [[Hph _] _].
  fold w in Hex, Hez, Hsync, Hph.
  assert (Hpos : RelativeView.photon_position (App.relative w')
                 = vec3 0 (h * cos 0.2) (h * sin 0.2)).
  { subst w'. cbn [App.step App.relative RelativeView.animate
                   RelativeView.photon_position].
    unfold RelativeView.currentPhase. rewrite Hsync.
    unfold applyEuler, rotateX, rotateY, rotateZ. cbn [x y z].
    rewrite Hex, Hez, sin_0, cos_0. subst h.
    replace 3.0 with 3 by lra. f_equal; ring. }
  split; [exact Hpos|]. split; [|reflexivity].
  rewrite Hpos. unfold norm2; cbn [x y z].
  pose proof (sin2_cos2 0.2) as Ht. unfold Rsqr in Ht.
  replace (0 * 0 + h * cos 0.2 * (h * cos 0.2) + h * sin 0.2 * (h * sin 0.2))
    with (h * h * (sin 0.2 * sin 0.2 + cos 0.2 * cos 0.2)) by ring.
  rewrite Ht. subst h. nra.
Qed.

Lemma relative_photon_moves_on_a_line_witness :
  let es := [App.CanvasFrame; App.RelativeFrame; App.TogglePlay;
             App.RelativeFrame] in
  let w := App.run App.initialWorld es in
  let w' := App.step w App.RelativeFrame in
  let h := - 3 + photonPhase (state (App.canvas w)) * 6 in
  RelativeView.photon_position (App.relative w')
    = vec3 0 (h * cos 0.2) (h * sin 0.2) /\
  norm2 (RelativeView.photon_position (App.relative w')) <= 3 * 3 /\
  ey (RelativeView.clockGroup_rotation (App.relative w'))
    = ey (RelativeView.clockGroup_rotation (App.relative w))
      + (0.002 + App.orbitSpeed (App.app w) * 0.05).
Proof.
  apply (relative_photon_moves_on_a_line
           [App.CanvasFrame; App.RelativeFrame; App.TogglePlay;
            App.RelativeFrame]).
  repeat constructor.
Defined.

(** X12.  The two views show the photon at the same height.  From any
    world, once the canvas has drawn a frame and the co-moving view
    has drawn the next, the distance of the main view's photon from
    the centre of its clock equals the distance of the co-moving
    view's photon from the centre of its own clock, in every scenario
    and whatever the two clocks' rotations are. *)
Theorem views_agree_on_photon_height (w : App.World) :
  let w1 := App.step w App.CanvasFrame in
  let w2 := App.step w1 App.RelativeFrame in
  let o := objects (App.canvas w1) in
  dist2 (photon_position o) (shipGroup_position o)
    = norm2 (RelativeView.photon_position (App.relative w2)).
Proof.
  cbv zeta. cbn [App.step].
  pose proof (animate_photon_position (App.canvasProps (App.app w))
                (App.canvas w) (App.sharedSimState (App.app w))) as Hpos.
  pose proof (animate_synced (App.canvasProps (App.app w)) (App.canvas w)
                (App.sharedSimState (App.app w))) as [Hsync _].
  cbv zeta in Hpos.
  destruct (animate _ _ _) as [three sh]. cbn [fst snd] in *.
  cbn [App.canvas App.relative App.app App.setShared App.sharedSimState
       RelativeView.animate RelativeView.photon_position].
  rewrite Hpos, dist2_add_left, !norm2_applyEuler.
  unfold RelativeView.currentPhase. rewrite Hsync.
  unfold norm2; cbn [x y z]. replace 3.0 with 3 by lra. ring.
Qed.

(* ================================================================== *)
(** ** The newest point of the trail *)
(* ================================================================== *)

Lemma capped_keeps_last (tp : list Vector3) (pos : Vector3) :
  exists front, capped tp pos = front ++ [pos].
Proof.
  unfold capped, push, shift.
  destruct (trailMax <? length (tp ++ [pos]))%nat eqn:E; [|now exists tp].
  destruct tp as [|a tp]; [|now exists tp].
  cbn in E. discriminate.
Qed.

(** X13.  The trail ends at the photon.  After a running frame with
    the trail shown at a ratio in 0 .. 0.99, in every scenario, the
    newest point of [trailPoints] is the position at which the photon
    has just been placed: neither eviction removes the point that was
    just appended. *)
Theorem trail_ends_at_the_photon
    (p : Props) (three : ThreeRef) (sh : SharedSimState.t) :
  showTrail p = true -> isRunning p = true ->
  let m := animate p three sh in
  exists front,
    trailPoints (state (fst m)) = front ++ [photon_position (objects (fst m))].
Proof.
  intros Ht Hr m.
  pose proof (animate_trail_running p three sh Ht Hr) as Htp.
  cbv zeta in Htp. fold m in Htp. rewrite Htp.
  destruct (capped_keeps_last (trailPoints (state three))
              (photon_position (objects (fst m)))) as (front & ->).
  destruct (scenario_eqb (scenario p) LINEAR) eqn:E; [|now exists front].
  apply scenario_eqb_eq in E.
  pose proof (animate_photon_x_linear p three sh E) as Hx. fold m in Hx.
  destruct front as [|a front]; cbn [app evictBehind].
  - destruct (Rlt_dec _ _) as [Hlt | _]; [rewrite Hx in Hlt; lra|].
    now exists [].
  - destruct (Rlt_dec _ _); [now exists front | now exists (a :: front)].
Qed.

Lemma trail_ends_at_the_photon_witness :
  let m := animate (mkProps true 0.99 true LINEAR) mount
                   (SharedSimState.mk 0.5 1) in
  exists front,
    trailPoints (state (fst m)) = front ++ [photon_position (objects (fst m))].
Proof.
  apply (trail_ends_at_the_photon (mkProps true 0.99 true LINEAR) mount
           (SharedSimState.mk 0.5 1)); reflexivity.
Defined.

(* ================================================================== *)
(** ** Many frames *)
(* ================================================================== *)

(** X14.  Running frames add up.  After [n] running frames drawn with
    the same props, [celestialTime] has grown by [n * 0.02], [shipTime]
    by [n * beta * 0.04], and [linearOffset] by [n * beta * 0.8] in the
    LINEAR scenario and by nothing in the others; so the platform's
    orbit angle [shipTime * 2.5], which the frame gives the platform
    as its heading, grows by [0.1 * beta] per frame.  After [n] paused
    frames the three are what they were. *)
Theorem clocks_add_up_over_frames
    (p : Props) (n : nat) (m : ThreeRef * SharedSimState.t) :
  let beta := orbitSpeedMultiplier p in
  let st := state (fst m) in
  let st' := state (fst (frames p n m)) in
  (isRunning p = true ->
     celestialTime st' = celestialTime st + INR n * 0.02 /\
     shipTime st' = shipTime st + INR n * (beta * 0.04) /\
     linearOffset st' = linearOffset st
        + (if scenario_eqb (scenario p) LINEAR then INR n * (beta * 0.8) else 0) /\
     (scenario p <> LINEAR -> (0 < n)%nat ->
        ey (shipMesh_rotation (objects (fst (frames p n m))))
          = (shipTime st + INR n * (beta * 0.04)) * 2.5)) /\
  (isRunning p = false ->
     celestialTime st' = celestialTime st /\
     shipTime st' = shipTime st /\
     linearOffset st' = linearOffset st).
Proof.
  intros beta st st'. subst st'. split; intros Hr.
  - assert (Hclocks : forall k,
      let s := state (fst (frames p k m)) in
      celestialTime s = celestialTime st + INR k * 0.02 /\
      shipTime s = shipTime st + INR k * (beta * 0.04) /\
      linearOffset s = linearOffset st
        + (if scenario_eqb (scenario p) LINEAR then INR k * (beta * 0.8) else 0)).
    { induction k as [|k IH]; cbv zeta.
      - change (frames p 0 m) with m. cbn [INR]. fold st.
        destruct (scenario_eqb (scenario p) LINEAR); repeat split; lra.
      - destruct IH as (Hc & Hs & Hl).
        rewrite frames_S, S_INR. unfold frame. rewrite animate_state. cbv zeta.
        cbn [celestialTime shipTime linearOffset].
        rewrite (advance_running p _ Hr). cbn [celestialTime shipTime linearOffset].
        rewrite Hc, Hs, Hl. fold beta.
        unfold CELESTIAL_DT, vShip, SPEED_OF_LIGHT.
        destruct (scenario_eqb (scenario p) LINEAR); repeat split; nra. }
    destruct (Hclocks n) as (Hc & Hs & Hl).
    split; [exact Hc|]. split; [exact Hs|]. split; [exact Hl|].
    intros Hsc Hn. destruct n as [|n]; [lia|].
    rewrite <- Hs. rewrite frames_S. unfold frame, animate, position.
    cbn [fst objects shipMesh_rotation state].
    destruct (scenario p) eqn:E; [contradiction | | |];
      cbn [scenario_eqb]; unfold positionOrbit; rewrite E; cbn [scenario_eqb];
      cbv zeta; destruct (Req_dec_T _ 0); reflexivity.
  - induction n as [|n IH]; [repeat split|].
    destruct IH as (Hc & Hs & Hl).
    rewrite frames_S. unfold frame. rewrite animate_state. cbv zeta.
    cbn [celestialTime shipTime linearOffset].
    rewrite (advance_paused p _ Hr). auto.
Qed.

(* ================================================================== *)
(** ** The position buffer of the trail line *)
(* ================================================================== *)

Lemma write_three (fround : R -> R) (idx : nat) :
  forall (arr : Float32Array.t) (a b c : R),
    (idx + 3 <= length arr)%nat ->
    Float32Array.set fround
      (Float32Array.set fround (Float32Array.set fround arr idx a) (idx + 1) b)
      (idx + 2) c
    = firstn idx arr ++ [fround a; fround b; fround c] ++ skipn (idx + 3) arr.
Proof.
  induction idx as [|idx IH]; intros arr a b c Hlen.
  - destruct arr as [|x1 [|x2 [|x3 rest]]]; cbn in Hlen; try lia. reflexivity.
  - destruct arr as [|h arr]; cbn in Hlen; [lia|].
    cbn [Nat.add Float32Array.set firstn skipn app]. f_equal.
    apply IH. lia.
Qed.

Lemma writeTrail_spec (fround : R -> R) (tp : list Vector3) :
  forall (arr : Float32Array.t) (idx : nat),
    (idx + 3 * length tp <= length arr)%nat ->
    fold_left
      (fun (acc : Float32Array.t * nat) (p : Vector3) =>
         let '(arr, idx) := acc in
         let arr := Float32Array.set fround arr idx (x p) in
         let arr := Float32Array.set fround arr (idx + 1) (y p) in
         let arr := Float32Array.set fround arr (idx + 2) (z p) in
         (arr, (idx + 3)%nat))
      tp (arr, idx)
    = (firstn idx arr ++ map fround (flatten tp)
         ++ skipn (idx + 3 * length tp) arr,
       (idx + 3 * length tp)%nat).
Proof.
  induction tp as [|p tp IH]; intros arr idx Hlen.
  - cbn [fold_left flatten flat_map map length app].
    rewrite Nat.mul_0_r, Nat.add_0_r, firstn_skipn. reflexivity.
  - cbn [length] in Hlen. cbn [fold_left]. cbv zeta.
    rewrite write_three by lia.
    rewrite IH.
    2:{ rewrite !length_app, length_firstn, length_skipn. cbn [length]. lia. }
    assert (Hf : length (firstn idx arr) = idx)
      by (rewrite length_firstn; lia).
    f_equal; [|cbn [length]; lia].
    replace (firstn idx arr ++ [fround (x p); fround (y p); fround (z p)]
             ++ skipn (idx + 3) arr)
      with ((firstn idx arr ++ [fround (x p); fround (y p); fround (z p)])
            ++ skipn (idx + 3) arr)
      by (now rewrite <- app_assoc).
    assert (Hl : length (firstn idx arr
                         ++ [fround (x p); fround (y p); fround (z p)])
                 = (idx + 3)%nat)
      by (rewrite length_app, Hf; reflexivity).
    rewrite firstn_app, skipn_app, Hl.
    rewrite firstn_all2 by lia. rewrite (skipn_all2 (n := idx + 3 + 3 * length tp))
      by lia.
    replace (idx + 3 - (idx + 3))%nat with 0%nat by lia.
    replace (idx + 3 + 3 * length tp - (idx + 3))%nat
      with (3 * length tp)%nat by lia.
    rewrite firstn_O, app_nil_r, skipn_skipn.
    cbn [app flatten flat_map map length].
    rewrite <- !app_assoc. cbn [app].
    replace (3 * length tp + (idx + 3))%nat
      with (idx + 3 * S (length tp))%nat by lia.
    reflexivity.
Qed.

(** X15.  The trail never outgrows the position buffer of its line.
    After every sequence of frames and control events the copy of
    [trailPoints] into a buffer of [3 * trailMaxPoints] cells stores
    every coordinate inside the buffer: the buffer then starts with
    the coordinates of the trail points, oldest first, three cells per
    point, each rounded to binary32 by its store, its remaining cells
    are untouched, and the cell count the loop ends with is three
    times the draw range. *)
Theorem trail_fits_its_buffer
    (fround : R -> R) (es : list App.Event) (posArr : Float32Array.t) :
  length posArr = (3 * CanvasBuffers.trailMaxPoints)%nat ->
  let w := App.run App.initialWorld es in
  let tp := trailPoints (state (App.canvas w)) in
  (3 * length tp <= length posArr)%nat /\
  CanvasBuffers.writeTrail fround tp posArr
    = (map fround (flatten tp) ++ skipn (3 * length tp) posArr,
       (3 * length tp)%nat).
Proof.
  intros Hlen w tp.
  pose proof (run_bufferInvariant es _ initialWorld_bufferInvariant) as [Hb _].
  fold w in Hb. fold tp in Hb.
  assert (Hfit : (3 * length tp <= length posArr)%nat).
  { rewrite Hlen. unfold CanvasBuffers.trailMaxPoints, trailMax in *. lia. }
  split; [exact Hfit|].
  unfold CanvasBuffers.writeTrail. rewrite writeTrail_spec by (cbn; lia).
  reflexivity.
Qed.

Lemma trail_fits_its_buffer_witness :
  let fround := saturate in
  let es := [App.CanvasFrame; App.CanvasFrame] in
  let posArr := repeat 0 (3 * CanvasBuffers.trailMaxPoints) in
  let w := App.run App.initialWorld es in
  let tp := trailPoints (state (App.canvas w)) in
  (3 * length tp <= length posArr)%nat /\
  CanvasBuffers.writeTrail fround tp posArr
    = (map fround (flatten tp) ++ skipn (3 * length tp) posArr,
       (3 * length tp)%nat).
Proof.
  apply (trail_fits_its_buffer saturate [App.CanvasFrame; App.CanvasFrame]
           (repeat 0 (3 * CanvasBuffers.trailMaxPoints))).
  apply repeat_length.
Defined.

(* ================================================================== *)
(** ** The order of the two views within an animation frame *)
(* ================================================================== *)





Lemma relative_frame_keeps_canvas (w : App.World) :
  App.canvas (App.step w App.RelativeFrame) = App.canvas w /\
  App.app (App.step w App.RelativeFrame) = App.app w.
Proof. split; reflexivity. Qed.









